(** * DocuGen MCP server ([src/simple-server.ts]): table parsing, occurrence
    search and edit-request construction.

    The five tools of the server are embedded as programs over the calls
    they make to the Google Docs / Drive clients.  JavaScript strings are
    sequences of UTF-16 code units, document offsets are integers. *)

From Stdlib Require Import ZArith NArith List Bool Lia String Ascii QArith.
From Stdlib Require Import DecimalString.
Import ListNotations.

Set Implicit Arguments.
Open Scope Z_scope.

(* ------------------------------------------------------------------------ *)
(** ** JavaScript strings *)

Module Js.

(** A code unit and a string of code units. *)
Definition char := N.
Definition jsstring := list char.

(** An ASCII literal as a string of code units. *)
Definition str (s : string) : jsstring :=
  List.map N_of_ascii (list_ascii_of_string s).

Definition ch_nl : char := 10%N.      (* "\n" *)
Definition ch_pipe : char := 124%N.   (* "|" *)
Definition ch_dash : char := 45%N.    (* "-" *)
Definition ch_colon : char := 58%N.   (* ":" *)
Definition ch_comma : char := 44%N.   (* "," *)

Definition char_eqb (a b : char) : bool := N.eqb a b.

(** [s.length] *)
Definition len (s : jsstring) : Z := Z.of_nat (List.length s).

(** Truthiness of a string: every string but the empty one. *)
Definition truthy (s : jsstring) : bool :=
  match s with [] => false | _ :: _ => true end.

(** WhiteSpace and LineTerminator code units: what [\s] matches and
    what [trim] strips. *)
Definition isSpace (c : char) : bool :=
  ((9 <=? c) && (c <=? 13) || (c =? 32) || (c =? 160) || (c =? 5760)
   || (8192 <=? c) && (c <=? 8202) || (c =? 8232) || (c =? 8233)
   || (c =? 8239) || (c =? 8287) || (c =? 12288) || (c =? 65279))%N.

Fixpoint dropWhile (p : char -> bool) (s : jsstring) : jsstring :=
  match s with
  | [] => []
  | c :: t => if p c then dropWhile p t else s
  end.

(** [s.trim()] *)
Definition trim (s : jsstring) : jsstring :=
  rev (dropWhile isSpace (rev (dropWhile isSpace s))).

(** [s.split(sep)] for a separator of one code unit. *)
Fixpoint split (sep : char) (s : jsstring) : list jsstring :=
  match s with
  | [] => [[]]
  | c :: t =>
      if char_eqb c sep then [] :: split sep t
      else match split sep t with
           | h :: r => (c :: h) :: r
           | [] => [[c]]
           end
  end.

(** [parts.join(sep)] *)
Fixpoint join (sep : jsstring) (parts : list jsstring) : jsstring :=
  match parts with
  | [] => []
  | [p] => p
  | p :: rest => p ++ sep ++ join sep rest
  end.

(** [text.startsWith(pat)], the comparison [indexOf] makes at one position. *)
Fixpoint startsWith (pat text : jsstring) : bool :=
  match pat, text with
  | [], _ => true
  | _ :: _, [] => false
  | p :: pat', c :: text' => char_eqb p c && startsWith pat' text'
  end.

(** The scan of [indexOf]: [rest] is the text from position [k] on. *)
Fixpoint scan (pat rest : jsstring) (k : Z) : Z :=
  if startsWith pat rest then k
  else match rest with
       | [] => -1
       | _ :: rest' => scan pat rest' (k + 1)
       end.

(** [text.indexOf(pat, from)]: the start position is clamped to
    [0 .. text.length]; the result is the first match at or after it,
    or -1. *)
Definition indexOf (text pat : jsstring) (from : Z) : Z :=
  let start := Z.min (Z.max from 0) (len text) in
  scan pat (skipn (Z.to_nat start) text) start.

(** [text.includes(pat)] *)
Definition includes (text pat : jsstring) : bool :=
  negb (indexOf text pat 0 =? -1).

(** Decimal rendering of a length inside a template literal. *)
Definition ofNat (n : nat) : jsstring :=
  str (NilEmpty.string_of_uint (Nat.to_uint n)).

End Js.

(* ------------------------------------------------------------------------ *)
(** ** Regular expressions, as far as the separator test needs them *)

Module Regex.
Import Js.

Inductive re : Type :=
| Void : re                       (* matches nothing *)
| Eps : re                        (* matches the empty string *)
| Cls : (char -> bool) -> re      (* one code unit of a class *)
| Seq : re -> re -> re
| Alt : re -> re -> re
| Star : re -> re.

Definition Opt (r : re) : re := Alt r Eps.       (* r? *)
Definition Plus (r : re) : re := Seq r (Star r). (* r+ *)

Fixpoint nullable (r : re) : bool :=
  match r with
  | Void => false
  | Eps => true
  | Cls _ => false
  | Seq a b => nullable a && nullable b
  | Alt a b => nullable a || nullable b
  | Star _ => true
  end.

Fixpoint deriv (c : char) (r : re) : re :=
  match r with
  | Void => Void
  | Eps => Void
  | Cls p => if p c then Eps else Void
  | Seq a b =>
      if nullable a then Alt (Seq (deriv c a) b) (deriv c b)
      else Seq (deriv c a) b
  | Alt a b => Alt (deriv c a) (deriv c b)
  | Star a => Seq (deriv c a) (Star a)
  end.

(** [s.match(/^r/)] is not null: some prefix of [s] is in the language
    of [r]. *)
Fixpoint matchesAtStart (r : re) (s : jsstring) : bool :=
  nullable r ||
  match s with
  | [] => false
  | c :: t => matchesAtStart (deriv c r) t
  end.

(** The words of a regular expression. *)
Fixpoint lang (r : re) (s : jsstring) : Prop :=
  match r with
  | Void => False
  | Eps => s = []
  | Cls p => exists c, s = [c] /\ p c = true
  | Seq a b => exists s1 s2, s = s1 ++ s2 /\ lang a s1 /\ lang b s2
  | Alt a b => lang a s \/ lang b s
  | Star a => exists ss, s = List.concat ss /\ Forall (fun x => lang a x) ss
  end.

End Regex.

(* ------------------------------------------------------------------------ *)
(** ** The document returned by [documents.get] and the edit requests *)

Module Docs.
Import Js.

(** A field that the API may leave out or set to null. *)
Inductive Nullable (A : Type) : Type :=
| Val : A -> Nullable A
| Null : Nullable A
| Undefined : Nullable A.
Arguments Val {A}.
Arguments Null {A}.
Arguments Undefined {A}.

Record TextRun := { content : option jsstring }.
Record ParagraphElement :=
  { startIndex : option Z; textRun : option TextRun }.
Record Paragraph := { elements : option (list ParagraphElement) }.
Record StructuralElement :=
  { paragraph : option Paragraph; endIndex : option Z }.
Record Body := { body_content : option (list StructuralElement) }.
Record Document := { body : option Body }.

(** [x || d] on an optional number: a missing value and 0 both give [d]. *)
Definition orElse (x : option Z) (d : Z) : Z :=
  match x with
  | Some v => if v =? 0 then d else v
  | None => d
  end.

Record TextStyle :=
  { ts_bold : option bool; ts_italic : option bool;
    ts_underline : option bool }.

Inductive Request : Type :=
| InsertText (index : Z) (text : jsstring)
| DeleteContentRange (startIndex endIndex : Z)
| UpdateTextStyle (startIndex endIndex : Z) (textStyle : TextStyle)
                  (fields : jsstring)
| UpdateParagraphStyle (startIndex endIndex : Z) (namedStyleType : jsstring)
                       (fields : jsstring)
| InsertTable (rows columns : Z) (index : Z).

(** The calls a tool makes to the Docs and Drive clients. *)
Inductive Call : Type :=
| DocumentsCreate (title : jsstring)
| DocumentsGet (documentId : jsstring)
| DocumentsBatchUpdate (documentId : Nullable jsstring)
                       (requests : list Request)
| FilesDelete (fileId : jsstring).

(** What a call resolves to. *)
Definition Resp (c : Call) : Type :=
  match c with
  | DocumentsCreate _ => Nullable jsstring   (* data.documentId *)
  | DocumentsGet _ => Document               (* data *)
  | DocumentsBatchUpdate _ _ => unit
  | FilesDelete _ => unit
  end.

(** An awaited call resolves or rejects; a rejection is thrown. *)
Inductive Outcome (A : Type) : Type :=
| Resolved : A -> Outcome A
| Rejected : jsstring -> Outcome A.   (* the error, as [`${error}`] prints it *)
Arguments Resolved {A}.
Arguments Rejected {A}.

(** A tool handler: it returns, or makes a call and goes on with the
    outcome.  [OutOfFuel] marks a loop cut off by the fuel of the model. *)
Inductive Prog (R : Type) : Type :=
| Ret : R -> Prog R
| Vis : forall c : Call, (Outcome (Resp c) -> Prog R) -> Prog R
| OutOfFuel : Prog R.
Arguments Ret {R}.
Arguments Vis {R}.
Arguments OutOfFuel {R}.

(** The calls made and the result, against a service that answers each
    call from the calls made before it. *)
Definition Service := forall (history : list Call) (c : Call), Outcome (Resp c).

Fixpoint run (R : Type) (svc : Service) (history : list Call) (p : Prog R)
  : list Call * option R :=
  match p with
  | Ret r => (history, Some r)
  | Vis c k => run svc (history ++ [c]) (k (svc history c))
  | OutOfFuel => (history, None)
  end.

Record ToolResult := { content_text : jsstring; isError : bool }.

(** The module-level client handles: assigned by [initClients] or still
    undefined. *)
Record Clients := { docsClient : bool; driveClient : bool }.

End Docs.

(* ------------------------------------------------------------------------ *)
(** ** The tools of [simple-server.ts] *)

Module Server.
Import Js Regex Docs.

Definition lengthZ (A : Type) (l : list A) : Z := Z.of_nat (List.length l).

(** [forEach] / [for ... of] over a list with a body that may not finish. *)
Fixpoint forEachM (A S : Type) (body : S -> A -> option S) (l : list A)
  (s : S) : option S :=
  match l with
  | [] => Some s
  | x :: rest =>
      match body s x with
      | Some s' => forEachM body rest s'
      | None => None
      end
  end.

(** *** [formatMarkdownTable] *)

(** A line of [formattedLines]: a line of the input pushed as it is, or
    the fence the function pushes around a table. *)
Inductive OutLine : Type :=
| Pushed : jsstring -> OutLine
| Fence : OutLine.

Definition fence : jsstring := str "```".

Definition render (l : OutLine) : jsstring :=
  match l with
  | Pushed line => line
  | Fence => fence
  end.

Fixpoint formatLoop (lines : list jsstring) (inTable : bool)
  (formattedLines : list OutLine) : bool * list OutLine :=
  match lines with
  | [] => (inTable, formattedLines)
  | line :: rest =>
      if includes line (str "|") then
        if negb inTable
        then formatLoop rest true (formattedLines ++ [Fence; Pushed line])
        else formatLoop rest inTable (formattedLines ++ [Pushed line])
      else if inTable
        then formatLoop rest false (formattedLines ++ [Fence; Pushed line])
        else formatLoop rest inTable (formattedLines ++ [Pushed line])
  end.

Definition formattedLines (text : jsstring) : list OutLine :=
  let '(inTable, formattedLines) := formatLoop (split ch_nl text) false [] in
  if inTable then formattedLines ++ [Fence] else formattedLines.

Definition formatMarkdownTable (text : jsstring) : jsstring :=
  join [ch_nl] (List.map render (formattedLines text)).

(** *** Results *)

Definition crossMark : jsstring := [10060%N].   (* U+274C *)
Definition checkMark : jsstring := [9989%N].    (* U+2705 *)
Definition timesSign : jsstring := [215%N].     (* U+00D7 *)
Definition quote : jsstring := [34%N].

Definition failure (msg : jsstring) : ToolResult :=
  {| content_text := msg; isError := true |}.
Definition success (msg : jsstring) : ToolResult :=
  {| content_text := msg; isError := false |}.

(** The [catch] block every handler ends with (it also logs the error). *)
Definition caught (error : jsstring) : ToolResult :=
  failure (str "Error: " ++ error).

(** [await client.call(...)] inside the [try]. *)
Definition await (c : Call) (k : Resp c -> Prog ToolResult)
  : Prog ToolResult :=
  Vis c (fun o => match o with
                  | Resolved x => k x
                  | Rejected e => Ret (caught e)
                  end).

Definition showId (id : Nullable jsstring) : jsstring :=
  match id with
  | Val s => s
  | Null => str "null"
  | Undefined => str "undefined"
  end.

(** *** CreateDoc *)

Definition CreateDoc (cl : Clients) (title : jsstring)
  (content : option jsstring) : Prog ToolResult :=
  if negb (docsClient cl) then
    Ret (failure (crossMark ++
                  str " Google API not initialized. Please check credentials."))
  else
    await (DocumentsCreate title) (fun documentId =>
      let done :=
        Ret (success (checkMark ++ str " Created document " ++ quote ++ title
                      ++ quote ++ [ch_nl] ++ str "ID: " ++ showId documentId)) in
      match content with
      | Some content =>
          if truthy content then
            let formattedContent := formatMarkdownTable content in
            await (DocumentsBatchUpdate documentId
                     [InsertText 1 formattedContent])
                  (fun _ => done)
          else done
      | None => done
      end).

(** *** UpdateDoc *)

Inductive Mode : Type := replace | append.

Definition showMode (m : Mode) : jsstring :=
  match m with
  | replace => str "replace"
  | append => str "append"
  end.

(** [doc.data.body?.content?.slice(-1)[0]?.endIndex] *)
Definition lastEndIndex (doc : Document) : option Z :=
  match body doc with
  | Some b =>
      match body_content b with
      | Some els =>
          match rev els with
          | el :: _ => endIndex el
          | [] => None
          end
      | None => None
      end
  | None => None
  end.

Definition updateRequests (doc : Document) (content : jsstring) (mode : Mode)
  : list Request :=
  match mode with
  | replace =>
      let endIndex := orElse (lastEndIndex doc) 1 in
      (if endIndex >? 1 then [DeleteContentRange 1 (endIndex - 1)] else [])
      ++ [InsertText 1 content]
  | append =>
      let endIndex := orElse (lastEndIndex doc) 1 in
      [InsertText (endIndex - 1) ([ch_nl] ++ content)]
  end.

Definition UpdateDoc (cl : Clients) (documentId content : jsstring)
  (mode : option Mode) : Prog ToolResult :=
  let mode := match mode with Some m => m | None => append end in
  if negb (docsClient cl) then
    Ret (failure (crossMark ++ str " Google API not initialized."))
  else
    await (DocumentsGet documentId) (fun doc =>
      let requests := updateRequests doc content mode in
      await (DocumentsBatchUpdate (Val documentId) requests) (fun _ =>
        Ret (success (checkMark ++ str " Updated document " ++ documentId
                      ++ str " (mode: " ++ showMode mode ++ str ")")))).

(** *** DeleteDoc *)

Definition DeleteDoc (cl : Clients) (documentId : jsstring)
  : Prog ToolResult :=
  if negb (driveClient cl) then
    Ret (failure (crossMark ++ str " Google API not initialized."))
  else
    await (FilesDelete documentId) (fun _ =>
      Ret (success (checkMark ++ str " Deleted document " ++ documentId))).

(** *** FormatDoc *)

Record FormatInstruction :=
  { text : jsstring;
    bold : option bool;
    italic : option bool;
    underline : option bool;
    heading : option Q }.

Record Occurrence := { start : Z; end_ : Z }.

(** The [while (index !== -1)] loop over one text run. *)
Fixpoint whileFound (fuel : nat) (text target : jsstring) (startIndex : Z)
  (index : Z) (occurrences : list Occurrence) : option (list Occurrence) :=
  match fuel with
  | O => None
  | S fuel' =>
      if index =? -1 then Some occurrences
      else
        whileFound fuel' text target startIndex
          (indexOf text target (index + 1))
          (occurrences ++ [{| start := startIndex + index;
                              end_ := startIndex + index + len target |}])
  end.

Definition searchElem (fuel : nat) (target : jsstring)
  (occurrences : list Occurrence) (elem : ParagraphElement)
  : option (list Occurrence) :=
  match textRun elem with
  | Some run =>
      match content run with
      | Some text =>
          if truthy text then
            whileFound fuel text target (orElse (startIndex elem) 0)
              (indexOf text target 0) occurrences
          else Some occurrences
      | None => Some occurrences
      end
  | None => Some occurrences
  end.

Definition searchElement (fuel : nat) (target : jsstring)
  (occurrences : list Occurrence) (element : StructuralElement)
  : option (list Occurrence) :=
  match paragraph element with
  | Some p =>
      match elements p with
      | Some elems => forEachM (searchElem fuel target) elems occurrences
      | None => Some occurrences
      end
  | None => Some occurrences
  end.

Definition findOccurrences (fuel : nat) (doc : Document) (target : jsstring)
  : option (list Occurrence) :=
  match body doc with
  | Some b =>
      match body_content b with
      | Some els => forEachM (searchElement fuel target) els []
      | None => Some []
      end
  | None => Some []
  end.

(** [textStyle] and [fields]: empty at first, then filled by the three
    [!== undefined] tests. *)
Definition noStyle : TextStyle :=
  {| ts_bold := None; ts_italic := None; ts_underline := None |}.

Definition styleOf (format : FormatInstruction) : TextStyle * list jsstring :=
  let '(textStyle, fields) := (noStyle, []) in
  let '(textStyle, fields) :=
    match bold format with
    | Some b =>
        ({| ts_bold := Some b; ts_italic := ts_italic textStyle;
            ts_underline := ts_underline textStyle |},
         fields ++ [str "bold"])
    | None => (textStyle, fields)
    end in
  let '(textStyle, fields) :=
    match italic format with
    | Some b =>
        ({| ts_bold := ts_bold textStyle; ts_italic := Some b;
            ts_underline := ts_underline textStyle |},
         fields ++ [str "italic"])
    | None => (textStyle, fields)
    end in
  match underline format with
  | Some b =>
      ({| ts_bold := ts_bold textStyle; ts_italic := ts_italic textStyle;
          ts_underline := Some b |},
       fields ++ [str "underline"])
  | None => (textStyle, fields)
  end.

(** Truthiness of a number. *)
Definition truthyQ (q : Q) : bool := negb (Qeq_bool q 0).

Definition headingType (h : Q) : jsstring :=
  if Qeq_bool h 1 then str "HEADING_1"
  else if Qeq_bool h 2 then str "HEADING_2"
  else str "HEADING_3".

(** The body of [for (const occurrence of occurrences)]. *)
Definition applyOccurrence (format : FormatInstruction)
  (requests : list Request) (occurrence : Occurrence) : list Request :=
  let '(textStyle, fields) := styleOf format in
  let requests :=
    if lengthZ fields >? 0 then
      requests ++ [UpdateTextStyle (start occurrence) (end_ occurrence)
                     textStyle (join [ch_comma] fields)]
    else requests in
  match heading format with
  | Some h =>
      if truthyQ h then
        requests ++ [UpdateParagraphStyle (start occurrence) (end_ occurrence)
                       (headingType h) (str "namedStyleType")]
      else requests
  | None => requests
  end.

(** The body of [for (const format of formatting)]. *)
Definition applyFormat (fuel : nat) (doc : Document) (requests : list Request)
  (format : FormatInstruction) : option (list Request) :=
  match findOccurrences fuel doc (text format) with
  | Some occurrences =>
      Some (fold_left (applyOccurrence format) occurrences requests)
  | None => None
  end.

Definition formatRequests (fuel : nat) (doc : Document)
  (formatting : list FormatInstruction) : option (list Request) :=
  forEachM (applyFormat fuel doc) formatting [].

Definition FormatDoc (fuel : nat) (cl : Clients) (documentId : jsstring)
  (formatting : list FormatInstruction) : Prog ToolResult :=
  if negb (docsClient cl) then
    Ret (failure (crossMark ++ str " Google API not initialized."))
  else
    await (DocumentsGet documentId) (fun doc =>
      let done :=
        Ret (success (checkMark ++ str " Applied formatting to document "
                      ++ documentId)) in
      match formatRequests fuel doc formatting with
      | Some requests =>
          if lengthZ requests >? 0 then
            await (DocumentsBatchUpdate (Val documentId) requests)
                  (fun _ => done)
          else done
      | None => OutOfFuel
      end).

(** *** ConvertToTable *)

(** The class [[\s\-:|]] and the pattern [/^\|?[\s\-:|]+\|/]. *)
Definition isPipe (c : char) : bool := char_eqb c ch_pipe.

Definition separatorClass (c : char) : bool :=
  isSpace c || char_eqb c ch_dash || char_eqb c ch_colon || char_eqb c ch_pipe.

Definition separatorRe : re :=
  Seq (Opt (Cls isPipe)) (Seq (Plus (Cls separatorClass)) (Cls isPipe)).

Definition isSeparatorLine (line : jsstring) : bool :=
  matchesAtStart separatorRe line.

Definition parseCells (line : jsstring) : list jsstring :=
  List.filter truthy (List.map trim (split ch_pipe line)).

(** The body of [for (const line of lines)]. *)
Definition parseLine (rows : list (list jsstring)) (line : jsstring)
  : list (list jsstring) :=
  if isSeparatorLine line then rows
  else
    let cells := parseCells line in
    if lengthZ cells >? 0 then rows ++ [cells] else rows.

Definition tableLines (tableText : jsstring) : list jsstring :=
  split ch_nl (trim tableText).

Definition parseRows (tableText : jsstring) : list (list jsstring) :=
  fold_left parseLine (tableLines tableText) [].

(** The search for the table text: the state is
    [(tableStartIndex, tableEndIndex)]. *)
Definition locateElem (lines : list jsstring) (st : Z * Z)
  (elem : ParagraphElement) : Z * Z :=
  let '(tableStartIndex, tableEndIndex) := st in
  match textRun elem with
  | Some run =>
      match content run with
      | Some text =>
          if truthy text then
            let index := indexOf text (hd [] lines) 0 in
            if negb (index =? -1) && (tableStartIndex =? -1) then
              let tableStartIndex := orElse (startIndex elem) 0 + index in
              let lastLine := last lines [] in
              let endIndex := indexOf text lastLine 0 in
              if negb (endIndex =? -1) then
                (tableStartIndex,
                 orElse (startIndex elem) 0 + endIndex + len lastLine)
              else (tableStartIndex, tableEndIndex)
            else st
          else st
      | None => st
      end
  | None => st
  end.

Definition locateElement (lines : list jsstring) (st : Z * Z)
  (element : StructuralElement) : Z * Z :=
  match paragraph element with
  | Some p =>
      match elements p with
      | Some elems => fold_left (locateElem lines) elems st
      | None => st
      end
  | None => st
  end.

Definition locateTable (doc : Document) (lines : list jsstring) : Z * Z :=
  match body doc with
  | Some b =>
      match body_content b with
      | Some els => fold_left (locateElement lines) els (-1, -1)
      | None => (-1, -1)
      end
  | None => (-1, -1)
  end.

(** The first batch: delete the markdown text, insert the table. *)
Definition tableRequests (rows : list (list jsstring))
  (tableStartIndex tableEndIndex : Z) : list Request :=
  (if tableEndIndex >? tableStartIndex
   then [DeleteContentRange tableStartIndex tableEndIndex] else [])
  ++ [InsertTable (lengthZ rows) (lengthZ (hd [] rows)) tableStartIndex].

(** The second batch: the two nested [for] loops over rows and columns. *)
Fixpoint cellLoop (tableStartIndex rowIndex colIndex : Z)
  (row : list jsstring) (cellRequests : list Request) : list Request :=
  match row with
  | [] => cellRequests
  | cellText :: rest =>
      cellLoop tableStartIndex rowIndex (colIndex + 1) rest
        (if truthy cellText then
           let cellIndex := tableStartIndex + 4 + rowIndex * 5 + colIndex * 2 in
           cellRequests ++ [InsertText cellIndex cellText]
         else cellRequests)
  end.

Fixpoint rowLoop (tableStartIndex rowIndex : Z) (rows : list (list jsstring))
  (cellRequests : list Request) : list Request :=
  match rows with
  | [] => cellRequests
  | row :: rest =>
      rowLoop tableStartIndex (rowIndex + 1) rest
        (cellLoop tableStartIndex rowIndex 0 row cellRequests)
  end.

Definition cellRequests (rows : list (list jsstring)) (tableStartIndex : Z)
  : list Request :=
  rowLoop tableStartIndex 0 rows [].

Definition ConvertToTable (cl : Clients) (documentId tableText : jsstring)
  : Prog ToolResult :=
  if negb (docsClient cl) then
    Ret (failure (crossMark ++ str " Google API not initialized."))
  else
    let lines := tableLines tableText in
    let rows := parseRows tableText in
    if lengthZ rows =? 0 then
      Ret (failure (crossMark ++ str " No valid table data found"))
    else
      await (DocumentsGet documentId) (fun doc =>
        let '(tableStartIndex, tableEndIndex) := locateTable doc lines in
        if tableStartIndex =? -1 then
          Ret (failure (crossMark ++
                        str " Could not find table text in document"))
        else
          let requests := tableRequests rows tableStartIndex tableEndIndex in
          await (DocumentsBatchUpdate (Val documentId) requests) (fun _ =>
            let cellRequests := cellRequests rows tableStartIndex in
            let done :=
              Ret (success
                     (checkMark ++
                      str " Converted markdown table to Google Docs table ("
                      ++ ofNat (List.length rows) ++ str " rows " ++ timesSign
                      ++ str " " ++ ofNat (List.length (hd [] rows))
                      ++ str " columns)")) in
            if lengthZ cellRequests >? 0 then
              await (DocumentsBatchUpdate (Val documentId) cellRequests)
                    (fun _ => done)
            else done)).

End Server.

(* ------------------------------------------------------------------------ *)
(** ** Notions the properties are stated with *)

Module Props.
Import Js Regex Docs Server.

(** The text runs of a document in document order, each with its start
    offset: the runs the two searches visit. *)
Definition runsOfElem (elem : ParagraphElement) : list (Z * jsstring) :=
  match textRun elem with
  | Some run =>
      match content run with
      | Some text =>
          if truthy text then [(orElse (startIndex elem) 0, text)] else []
      | None => []
      end
  | None => []
  end.

Definition runsOfElement (element : StructuralElement) : list (Z * jsstring) :=
  match paragraph element with
  | Some p =>
      match elements p with
      | Some elems => flat_map runsOfElem elems
      | None => []
      end
  | None => []
  end.

Definition textRuns (doc : Document) : list (Z * jsstring) :=
  match body doc with
  | Some b =>
      match body_content b with
      | Some els => flat_map runsOfElement els
      | None => []
      end
  | None => []
  end.

(** Every position of [rest] (which starts at position [k]) at which
    [target] begins, overlapping ones included. *)
Fixpoint matchPositions (target rest : jsstring) (k : Z) : list Z :=
  match rest with
  | [] => []
  | _ :: rest' =>
      (if startsWith target rest then [k] else [])
      ++ matchPositions target rest' (k + 1)
  end.

Definition occurrencesIn (target : jsstring) (run : Z * jsstring)
  : list Occurrence :=
  List.map (fun k => {| start := fst run + k;
                        end_ := fst run + k + len target |})
           (matchPositions target (snd run) 0).

(** The occurrences of [target] in a document: those inside one run. *)
Definition occurrencesOf (doc : Document) (target : jsstring)
  : list Occurrence :=
  flat_map (occurrencesIn target) (textRuns doc).

(** Fuel that lets every search loop over the runs of [doc] finish. *)
Definition enoughFuel (doc : Document) : nat :=
  S (list_max (List.map (fun r => List.length (snd r)) (textRuns doc))).

(** [target] is in no text run of the document. *)
Definition notFound (doc : Document) (target : jsstring) : Prop :=
  forall r, In r (textRuns doc) -> indexOf (snd r) target 0 = -1.

(** Offsets of text runs are not negative. *)
Definition offsetsNonNegative (doc : Document) : Prop :=
  forall r, In r (textRuns doc) -> 0 <= fst r.

(** A line made only of "|", "-", ":" and white space. *)
Definition separatorOnly (line : jsstring) : bool :=
  forallb separatorClass line.

(** A line that is kept and gives a row. *)
Definition rowLine (line : jsstring) : bool :=
  negb (isSeparatorLine line) && (lengthZ (parseCells line) >? 0).

(** The lines of [formattedLines] without accumulator: what is pushed for
    [lines] when the loop is entered with [inTable], closing fence
    included. *)
Fixpoint emitted (lines : list jsstring) (inTable : bool) : list OutLine :=
  match lines with
  | [] => if inTable then [Fence] else []
  | line :: rest =>
      if includes line (str "|") then
        (if inTable then [Pushed line] else [Fence; Pushed line])
        ++ emitted rest true
      else
        (if inTable then [Fence; Pushed line] else [Pushed line])
        ++ emitted rest false
  end.

Fixpoint countFence (out : list OutLine) : nat :=
  match out with
  | [] => O
  | Fence :: rest => S (countFence rest)
  | Pushed _ :: rest => countFence rest
  end.

(** The input lines among the output lines. *)
Fixpoint pushedLines (out : list OutLine) : list jsstring :=
  match out with
  | [] => []
  | Fence :: rest => pushedLines rest
  | Pushed line :: rest => line :: pushedLines rest
  end.

(** Reading the output with the fences as brackets: every line with a
    "|" is inside an open block, and the last block is closed. *)
Fixpoint fenced (out : list OutLine) (open : bool) : bool :=
  match out with
  | [] => negb open
  | Fence :: rest => fenced rest (negb open)
  | Pushed line :: rest =>
      (if includes line (str "|") then open else true) && fenced rest open
  end.

(** The calls of a tool that are [batchUpdate]s. *)
Definition isBatchUpdate (c : Call) : bool :=
  match c with
  | DocumentsBatchUpdate _ _ => true
  | _ => false
  end.

Definition isDelete (r : Request) : bool :=
  match r with
  | DeleteContentRange _ _ => true
  | _ => false
  end.

(** A document with one paragraph per text run. *)
Definition docOfRuns (runs : list (Z * jsstring)) : Document :=
  {| body :=
       Some {| body_content :=
                 Some (List.map
                         (fun r =>
                            {| paragraph :=
                                 Some {| elements :=
                                           Some [{| startIndex := Some (fst r);
                                                    textRun :=
                                                      Some {| content :=
                                                                Some (snd r) |}
                                                 |}] |};
                               endIndex := Some (fst r + len (snd r)) |})
                         runs) |} |}.

(** A service that holds one document and accepts every call. *)
Definition serving (doc : Document) : Service :=
  fun _ c =>
    match c return Outcome (Resp c) with
    | DocumentsCreate _ => Resolved (Val (str "doc-1"))
    | DocumentsGet _ => Resolved doc
    | DocumentsBatchUpdate _ _ => Resolved tt
    | FilesDelete _ => Resolved tt
    end.

(** A style field that the instruction sets. *)
Definition isSet (field : option bool) : bool :=
  match field with Some _ => true | None => false end.

(** One step of the table search, on a text run with its offset. *)
Definition locateRun (lines : list jsstring) (st : Z * Z)
  (run : Z * jsstring) : Z * Z :=
  let index := indexOf (snd run) (hd [] lines) 0 in
  if negb (index =? -1) && (fst st =? -1) then
    let endIndex := indexOf (snd run) (last lines []) 0 in
    (fst run + index,
     if negb (endIndex =? -1)
     then fst run + endIndex + len (last lines [])
     else snd st)
  else st.

(** The table text of the example: "| A | B |", "|---|---|", "| 1 | 2 |". *)
Definition exampleTable : jsstring :=
  str "| A | B |" ++ [ch_nl] ++ str "|---|---|" ++ [ch_nl] ++ str "| 1 | 2 |".

End Props.

(* ------------------------------------------------------------------------ *)
(** ** The tools as the server registers them *)

Module Dispatch.
Import Js Docs Server.

(** A call of one of the five tools of [server.tool], with its arguments. *)
Inductive ToolCall : Type :=
| CallCreateDoc (title : jsstring) (content : option jsstring)
| CallUpdateDoc (documentId content : jsstring) (mode : option Mode)
| CallDeleteDoc (documentId : jsstring)
| CallFormatDoc (documentId : jsstring) (formatting : list FormatInstruction)
| CallConvertToTable (documentId tableText : jsstring).

Definition callTool (fuel : nat) (cl : Clients) (t : ToolCall)
  : Prog ToolResult :=
  match t with
  | CallCreateDoc title content => CreateDoc cl title content
  | CallUpdateDoc documentId content mode =>
      UpdateDoc cl documentId content mode
  | CallDeleteDoc documentId => DeleteDoc cl documentId
  | CallFormatDoc documentId formatting =>
      FormatDoc fuel cl documentId formatting
  | CallConvertToTable documentId tableText =>
      ConvertToTable cl documentId tableText
  end.

End Dispatch.

(* ------------------------------------------------------------------------ *)
(** ** Further notions for the properties *)

Module MoreProps.
Import Js Regex Docs Server Props.

(** A handler body: it returns, runs out of fuel, or awaits a call inside
    the [try] and goes on as a handler body. *)
Inductive Awaits : Prog ToolResult -> Prop :=
| Awaits_ret (r : ToolResult) : Awaits (Ret r)
| Awaits_fuel : Awaits OutOfFuel
| Awaits_call (c : Call) (k : Resp c -> Prog ToolResult) :
    (forall x, Awaits (k x)) -> Awaits (await c k).

(** A service that holds one document, accepts [create] and [get] and
    rejects every other call with the error [e]. *)
Definition readOnly (doc : Document) (e : jsstring) : Service :=
  fun _ c =>
    match c return Outcome (Resp c) with
    | DocumentsCreate _ => Resolved (Val (str "doc-1"))
    | DocumentsGet _ => Resolved doc
    | DocumentsBatchUpdate _ _ => Rejected e
    | FilesDelete _ => Rejected e
    end.

(** The elements of a list with their indexes, from [k] on. *)
Fixpoint indexed (A : Type) (k : Z) (l : list A) : list (Z * A) :=
  match l with
  | [] => []
  | x :: rest => (k, x) :: indexed (k + 1) rest
  end.

(** One InsertText per cell, row by row, at the offset of the formula. *)
Definition cellInserts (rows : list (list jsstring)) (tableStartIndex : Z)
  : list Request :=
  flat_map
    (fun row =>
       List.map
         (fun cell =>
            InsertText (tableStartIndex + 4 + fst row * 5 + fst cell * 2)
                       (snd cell))
         (indexed 0 (snd row)))
    (indexed 0 rows).

(** The requests of FormatDoc, instruction by instruction and occurrence
    by occurrence. *)
Definition requestsFor (doc : Document) (formatting : list FormatInstruction)
  : list Request :=
  flat_map
    (fun format =>
       flat_map (applyOccurrence format [])
                (occurrencesOf doc (text format)))
    formatting.

(** Reading the output with the fences as brackets: a pushed line is
    inside an open block exactly when it has a "|". *)
Fixpoint blocked (out : list OutLine) (open : bool) : bool :=
  match out with
  | [] => negb open
  | Fence :: rest => blocked rest (negb open)
  | Pushed line :: rest =>
      Bool.eqb (includes line (str "|")) open && blocked rest open
  end.

(** The names of the style fields that an instruction sets, in the order
    bold, italic, underline. *)
Definition setFieldNames (format : FormatInstruction) : list jsstring :=
  List.map fst
    (List.filter (fun field => isSet (snd field))
       [(str "bold", bold format); (str "italic", italic format);
        (str "underline", underline format)]).

End MoreProps.

(* ------------------------------------------------------------------------ *)
(** ** The ListDocs resource *)

Module Resource.
Import Js Docs Server.

(** A file of [response.data.files], with the fields the request asks for
    and the handler reads. *)
Record DriveFile :=
  { name : Nullable jsstring;
    id : Nullable jsstring;
    modifiedTime : Nullable jsstring }.

(** The one call: [driveClient.files.list], with its parameters. *)
Record ListParams :=
  { q : jsstring; fields : jsstring; pageSize : Z; orderBy : jsstring }.

Definition listParams : ListParams :=
  {| q := str "mimeType='application/vnd.google-apps.document'";
     fields := str "files(id, name, createdTime, modifiedTime)";
     pageSize := 20;
     orderBy := str "modifiedTime desc" |}.

(** [{ contents: [{ uri, text }] }] *)
Record Contents := { uri : jsstring; contents_text : jsstring }.

(** The handler: it returns, or lists the files and goes on with the
    outcome, [data.files] or nothing. *)
Inductive Listing : Type :=
| Return : Contents -> Listing
| FilesList : ListParams -> (Outcome (option (list DriveFile)) -> Listing)
              -> Listing.

Definition pageIcon : jsstring := [55357%N; 56516%N].   (* U+1F4C4 *)

Definition header : jsstring :=
  str "Recent Google Docs:" ++ [ch_nl; ch_nl].

Section ListDocs.

(** [new Date(t).toLocaleDateString()], which depends on the locale of
    the process. *)
Variable toLocaleDateString : Nullable jsstring -> jsstring.

(** The three [content +=] of the body of [files.forEach]. *)
Definition addFile (content : jsstring) (file : DriveFile) : jsstring :=
  let content := content ++ (pageIcon ++ str " " ++ showId (name file)
                             ++ [ch_nl]) in
  let content := content ++ (str "   ID: " ++ showId (id file) ++ [ch_nl]) in
  content ++ (str "   Modified: " ++ toLocaleDateString (modifiedTime file)
              ++ [ch_nl; ch_nl]).

Definition listing (files : list DriveFile) : jsstring :=
  let content := header in
  if lengthZ files =? 0 then content ++ str "No documents found."
  else fold_left addFile files content.

Definition ListDocs (driveClient : bool) (href : jsstring) : Listing :=
  if negb driveClient then
    Return {| uri := href;
              contents_text := crossMark ++ str " Google API not initialized." |}
  else
    FilesList listParams (fun o =>
      match o with
      | Resolved data_files =>
          let files := match data_files with
                       | Some files => files
                       | None => []
                       end in
          Return {| uri := href; contents_text := listing files |}
      | Rejected error =>
          Return {| uri := href; contents_text := str "Error: " ++ error |}
      end).

End ListDocs.

(** The calls made and what is returned, against the answer of the Drive
    service. *)
Fixpoint serve (answer : ListParams -> Outcome (option (list DriveFile)))
  (p : Listing) : list ListParams * Contents :=
  match p with
  | Return r => ([], r)
  | FilesList params k =>
      let '(calls, r) := serve answer (k (answer params)) in
      (params :: calls, r)
  end.

End Resource.

(* ------------------------------------------------------------------------ *)
(** ** Start-up: [authorize] and [initClients] *)

Module Startup.
Import Js Docs.

(** [v || d] on a variable of the environment: unset and empty both give
    [d]. *)
Definition orDefault (v : option jsstring) (d : jsstring) : jsstring :=
  match v with
  | Some s => if truthy s then s else d
  | None => d
  end.

(** The calls to the file system and to the sign-in of
    [@google-cloud/local-auth]. *)
Inductive FsCall : Type :=
| ExistsSync (path : jsstring)
| ReadFileSync (path : jsstring)
| Authenticate (keyfilePath : jsstring)
| WriteFileSync (path data : jsstring).

(** The client [authorize] returns: an OAuth2 client with the saved token
    set as credentials, or the client of the sign-in with its
    credentials. *)
Inductive AuthClient (Token : Type) : Type :=
| SavedToken (token : Token)
| SignedIn (credentials : Token).
Arguments SavedToken {Token}.
Arguments SignedIn {Token}.

Section Authorize.

(** The value of a token; [JSON.parse] (nothing when it throws) and
    [JSON.stringify]. *)
Variable Token : Type.
Variable parse : jsstring -> option Token.
Variable stringify : Token -> jsstring.

(** [process.env.TOKEN_PATH] and [path.join(DOCUGEN_DIR, "token.json")];
    [process.env.GOOGLE_OAUTH_PATH] and
    [path.join(process.cwd(), 'credentials.json')]. *)
Variable env_TOKEN_PATH : option jsstring.
Variable homeTokenPath : jsstring.
Variable env_GOOGLE_OAUTH_PATH : option jsstring.
Variable cwdCredentialsPath : jsstring.

Definition TOKEN_PATH : jsstring := orDefault env_TOKEN_PATH homeTokenPath.

(** What a call gives: [existsSync] does not throw, the others may. *)
Definition FsResp (c : FsCall) : Type :=
  match c with
  | ExistsSync _ => bool
  | ReadFileSync _ => Outcome jsstring
  | Authenticate _ => Outcome Token          (* auth.credentials *)
  | WriteFileSync _ _ => Outcome unit
  end.

Inductive Script (R : Type) : Type :=
| Done : R -> Script R
| Do : forall c : FsCall, (FsResp c -> Script R) -> Script R.
Arguments Done {R}.
Arguments Do {R}.

Fixpoint andThen (A B : Type) (p : Script A) (k : A -> Script B) : Script B :=
  match p with
  | Done a => k a
  | Do c f => Do c (fun x => andThen (f x) k)
  end.

(** The second half of [authorize]: the sign-in with the credentials
    file.  A result [Rejected] is an error thrown, as it prints. *)
Definition credentialsPath : jsstring :=
  orDefault env_GOOGLE_OAUTH_PATH cwdCredentialsPath.

Definition signIn : Script (Outcome (AuthClient Token)) :=
  Do (ExistsSync credentialsPath) (fun found =>
    if negb found then
      Done (Rejected (str "Error: Credentials file not found at "
                      ++ credentialsPath))
    else
      Do (Authenticate credentialsPath) (fun auth =>
        match auth with
        | Resolved token =>
            Do (WriteFileSync TOKEN_PATH (stringify token)) (fun written =>
              match written with
              | Resolved _ => Done (Resolved (SignedIn token))
              | Rejected error => Done (Rejected error)
              end)
        | Rejected error => Done (Rejected error)
        end)).

(** [authorize]: the saved token first ([new google.auth.OAuth2] and
    [setCredentials] are taken not to throw), the sign-in otherwise. *)
Definition authorize : Script (Outcome (AuthClient Token)) :=
  Do (ExistsSync TOKEN_PATH) (fun found =>
    if found then
      Do (ReadFileSync TOKEN_PATH) (fun data =>
        match data with
        | Resolved data =>
            match parse data with
            | Some token => Done (Resolved (SavedToken token))
            | None => signIn       (* "Invalid token, re-authenticating..." *)
            end
        | Rejected _ => signIn
        end)
    else signIn).

(** [initClients]: its result and the client handles after it
    ([google.docs] and [google.drive] build the handles from the client
    and are taken not to throw). *)
Definition initClients : Script (bool * Clients) :=
  andThen authorize (fun auth =>
    match auth with
    | Resolved _ =>
        Done (true, {| docsClient := true; driveClient := true |})
    | Rejected _ =>
        Done (false, {| docsClient := false; driveClient := false |})
    end).

(** The calls made and the result, against a world that answers each
    call from the calls made before it. *)
Definition World := forall (history : list FsCall) (c : FsCall), FsResp c.

Fixpoint play (R : Type) (world : World) (history : list FsCall)
  (p : Script R) : list FsCall * R :=
  match p with
  | Done r => (history, r)
  | Do c k => play world (history ++ [c]) (k (world history c))
  end.

(** A disk: the files by path.  It keeps what is written. *)
Definition Disk := jsstring -> option jsstring.

Fixpoint sameString (a b : jsstring) : bool :=
  match a, b with
  | [], [] => true
  | x :: a', y :: b' => char_eqb x y && sameString a' b'
  | _, _ => false
  end.

Definition written (disk : Disk) (path data : jsstring) : Disk :=
  fun p => if sameString p path then Some data else disk p.

(** The same on a disk, with a sign-in that answers by credentials
    file. *)
Fixpoint onDisk (R : Type) (login : jsstring -> Outcome Token) (disk : Disk)
  (p : Script R) : Disk * list FsCall * R :=
  match p with
  | Done r => (disk, [], r)
  | Do c k =>
      let step (disk' : Disk) (x : FsResp c) :=
        let '(d, calls, r) := onDisk login disk' (k x) in
        (d, c :: calls, r) in
      match c return (Disk -> FsResp c -> Disk * list FsCall * R)
                     -> Disk * list FsCall * R with
      | ExistsSync path => fun step =>
          step disk (match disk path with Some _ => true | None => false end)
      | ReadFileSync path => fun step =>
          step disk (match disk path with
                     | Some data => Resolved data
                     | None => Rejected (str "Error: ENOENT")
                     end)
      | Authenticate keyfilePath => fun step => step disk (login keyfilePath)
      | WriteFileSync path data => fun step =>
          step (written disk path data) (Resolved tt)
      end step
  end.

End Authorize.

End Startup.

(* ------------------------------------------------------------------------ *)
(** ** Facts about strings *)

Module JsFacts.
Import Js.

Lemma char_eqb_eq (a b : char) : char_eqb a b = true <-> a = b.
Proof. apply N.eqb_eq. Qed.

Lemma split_not_nil (sep : char) (s : jsstring) : split sep s <> [].
Proof.
  destruct s as [|c t]; simpl; [discriminate|].
  destruct (char_eqb c sep); [discriminate|].
  destruct (split sep t); discriminate.
Qed.

Lemma split_cons (sep c : char) (t : jsstring) :
  split sep (c :: t) =
  if char_eqb c sep then [] :: split sep t
  else (c :: hd [] (split sep t)) :: tl (split sep t).
Proof.
  simpl. destruct (char_eqb c sep); [reflexivity|].
  pose proof (split_not_nil sep t) as Hne.
  destruct (split sep t); [contradiction|reflexivity].
Qed.

Lemma join_cons (sep p : jsstring) (rest : list jsstring) :
  rest <> [] -> join sep (p :: rest) = p ++ sep ++ join sep rest.
Proof. destruct rest; [contradiction|reflexivity]. Qed.

(** Splitting at a code unit and joining with it gives the string back. *)
Lemma join_split (sep : char) (s : jsstring) :
  join [sep] (split sep s) = s.
Proof.
  induction s as [|c t IH]; [reflexivity|].
  rewrite split_cons.
  pose proof (split_not_nil sep t) as Hne.
  destruct (char_eqb c sep) eqn:E.
  - apply char_eqb_eq in E. subst c.
    rewrite join_cons by assumption. simpl. now rewrite IH.
  - destruct (split sep t) as [|h r]; [contradiction|].
    simpl hd. simpl tl.
    destruct r as [|h' r'].
    + simpl in *. now rewrite IH.
    + change (join [sep] ((c :: h) :: h' :: r'))
        with ((c :: h) ++ [sep] ++ join [sep] (h' :: r')).
      change (join [sep] (h :: h' :: r'))
        with (h ++ [sep] ++ join [sep] (h' :: r')) in IH.
      simpl. now rewrite <- IH.
Qed.

(** Every code unit of a piece is one of the string. *)
Lemma split_incl (sep : char) (s piece : jsstring) (c : char) :
  In piece (split sep s) -> In c piece -> In c s.
Proof.
  revert piece. induction s as [|x t IH]; simpl; intros piece Hp Hc.
  - destruct Hp as [<-|[]]. destruct Hc.
  - destruct (char_eqb x sep).
    + destruct Hp as [<-|Hp]; [destruct Hc|]. right. eauto.
    + pose proof (split_not_nil sep t) as Hne.
      destruct (split sep t) as [|h r]; [contradiction|].
      destruct Hp as [<-|Hp].
      * destruct Hc as [->|Hc]; [now left|]. right.
        apply (IH h); [now left|assumption].
      * right. apply (IH piece); [now right|assumption].
Qed.

Lemma scan_lower (pat rest : jsstring) (k : Z) :
  scan pat rest k = -1 \/ k <= scan pat rest k.
Proof.
  revert k. induction rest as [|c t IH]; intros k; simpl.
  - destruct pat; simpl; lia.
  - destruct (startsWith pat (c :: t)); [lia|].
    destruct (IH (k + 1)); lia.
Qed.

Lemma indexOf_0 (text pat : jsstring) :
  indexOf text pat 0 = scan pat text 0.
Proof.
  unfold indexOf, len.
  replace (Z.min (Z.max 0 0) (Z.of_nat (List.length text))) with 0 by lia.
  reflexivity.
Qed.

(** [indexOf] from a position inside the text scans the rest of it. *)
Lemma indexOf_skipn (pre rest pat : jsstring) :
  indexOf (pre ++ rest) pat (len pre) = scan pat rest (len pre).
Proof.
  unfold indexOf, len. rewrite length_app.
  replace (Z.min (Z.max (Z.of_nat (List.length pre)) 0)
             (Z.of_nat (List.length pre + List.length rest)))
    with (Z.of_nat (List.length pre)) by lia.
  rewrite Nat2Z.id.
  rewrite skipn_app, skipn_all, Nat.sub_diag. reflexivity.
Qed.

(** Searching for one code unit. *)
Lemma scan_single (c : char) (rest : jsstring) (k : Z) :
  0 <= k ->
  (scan [c] rest k =? -1) = negb (existsb (char_eqb c) rest).
Proof.
  revert k. induction rest as [|x t IH]; intros k Hk; simpl.
  - reflexivity.
  - destruct (char_eqb c x); simpl.
    + apply Z.eqb_neq. lia.
    + apply IH. lia.
Qed.

Lemma includes_single (c : char) (s : jsstring) :
  includes s [c] = existsb (char_eqb c) s.
Proof.
  unfold includes. rewrite indexOf_0, scan_single by lia.
  apply negb_involutive.
Qed.

Lemma existsb_In (c : char) (s : jsstring) :
  existsb (char_eqb c) s = true <-> In c s.
Proof.
  rewrite existsb_exists. split.
  - intros (x & Hx & E). apply char_eqb_eq in E. now subst.
  - intros H. exists c. split; [assumption|now apply char_eqb_eq].
Qed.

End JsFacts.

(* ------------------------------------------------------------------------ *)
(** ** Facts about the matcher *)

Module RegexFacts.
Import Js Regex.

Lemma nullable_lang (r : re) : nullable r = true <-> lang r [].
Proof.
  induction r as [| |p|a IHa b IHb|a IHa b IHb|a IHa]; simpl.
  - split; [discriminate|tauto].
  - tauto.
  - split; [discriminate|]. intros (c & H & _). discriminate.
  - rewrite andb_true_iff, IHa, IHb. split.
    + intros [Ha Hb]. exists [], []. auto.
    + intros (s1 & s2 & E & Ha & Hb).
      symmetry in E. apply app_eq_nil in E as [-> ->]. auto.
  - rewrite orb_true_iff, IHa, IHb. tauto.
  - split; [|reflexivity]. intros _. exists []. split; [reflexivity|constructor].
Qed.

(** A word of [Star a] that starts with [c] starts with a word of [a]
    that starts with [c]. *)
Lemma star_cons (a : re) (c : char) (s : jsstring) :
  lang (Star a) (c :: s) ->
  exists s1 s2, s = s1 ++ s2 /\ lang a (c :: s1) /\ lang (Star a) s2.
Proof.
  simpl. intros (ss & E & Hall).
  induction ss as [|w ws IH]; simpl in E; [discriminate|].
  inversion Hall as [|? ? Hw Hws]; subst.
  destruct w as [|x w'].
  - simpl in E. apply IH; assumption.
  - simpl in E. injection E as -> ->.
    exists w', (List.concat ws). repeat split; [assumption|].
    exists ws. split; [reflexivity|assumption].
Qed.

Lemma deriv_lang (r : re) (c : char) (s : jsstring) :
  lang (deriv c r) s <-> lang r (c :: s).
Proof.
  revert s.
  induction r as [| |p|a IHa b IHb|a IHa b IHb|a IHa]; intros s.
  - simpl. tauto.
  - simpl. split; [tauto|discriminate].
  - simpl. destruct (p c) eqn:E; simpl.
    + split.
      * intros ->. exists c. auto.
      * intros (x & Hx & _). now injection Hx.
    + split; [tauto|]. intros (x & Hx & Hp). injection Hx as <-. congruence.
  - assert (Hseq : lang (Seq (deriv c a) b) s <->
                   exists s1 s2, s = s1 ++ s2 /\ lang a (c :: s1) /\ lang b s2).
    { simpl. split; intros (s1 & s2 & E & Ha & Hb); exists s1, s2;
        (repeat split; [assumption| |assumption]); now apply IHa. }
    assert (Hcons : lang (Seq a b) (c :: s) <->
                    (exists s1 s2, s = s1 ++ s2 /\ lang a (c :: s1) /\ lang b s2)
                    \/ (lang a [] /\ lang b (c :: s))).
    { simpl. split.
      - intros (s1 & s2 & E & Ha & Hb). destruct s1 as [|x s1'].
        + simpl in E. subst s2. right. auto.
        + simpl in E. injection E as <- ->. left. exists s1', s2. auto.
      - intros [(s1 & s2 & E & Ha & Hb)|[Ha Hb]].
        + exists (c :: s1), s2. subst s. auto.
        + exists [], (c :: s). auto. }
    rewrite Hcons. simpl deriv.
    destruct (nullable a) eqn:N.
    + change (lang (Alt (Seq (deriv c a) b) (deriv c b)) s)
        with (lang (Seq (deriv c a) b) s \/ lang (deriv c b) s).
      rewrite Hseq, IHb. apply nullable_lang in N. tauto.
    + rewrite Hseq. split; [tauto|]. intros [H|[Ha _]]; [assumption|].
      apply nullable_lang in Ha. congruence.
  - simpl. rewrite IHa, IHb. tauto.
  - split.
    + simpl. intros (s1 & s2 & E & Ha & (ss & E2 & Hall)).
      apply IHa in Ha. exists ((c :: s1) :: ss). split.
      * simpl. now subst.
      * constructor; assumption.
    + intros H. apply star_cons in H as (s1 & s2 & E & Ha & Hs).
      simpl. exists s1, s2. repeat split; [assumption| |assumption].
      now apply IHa.
Qed.

(** The matcher decides whether a prefix of the string is a word. *)
Lemma matchesAtStart_spec (r : re) (s : jsstring) :
  matchesAtStart r s = true <->
  exists w rest, s = w ++ rest /\ lang r w.
Proof.
  revert r. induction s as [|c t IH]; intros r; simpl.
  - rewrite orb_false_r, nullable_lang. split.
    + intros H. exists [], []. auto.
    + intros (w & rest & E & H). symmetry in E.
      apply app_eq_nil in E as [-> _]. assumption.
  - rewrite orb_true_iff, nullable_lang, IH. split.
    + intros [H|(w & rest & E & H)].
      * exists [], (c :: t). auto.
      * exists (c :: w), rest. split; [now subst|]. now apply deriv_lang.
    + intros (w & rest & E & H). destruct w as [|x w'].
      * now left.
      * right. simpl in E. injection E as <- ->.
        exists w', rest. split; [reflexivity|]. now apply deriv_lang.
Qed.

(** Words of a repeated class. *)
Lemma lang_star_cls (p : char -> bool) (w : jsstring) :
  lang (Star (Cls p)) w <-> forallb p w = true.
Proof.
  split.
  - simpl. intros (ss & -> & Hall).
    induction Hall as [|x xs (c & -> & Hc) _ IH]; [reflexivity|].
    simpl. now rewrite Hc.
  - induction w as [|c t IH]; simpl; intros H.
    + exists []. split; [reflexivity|constructor].
    + apply andb_true_iff in H as [Hc Ht].
      destruct (IH Ht) as (ss & E & Hall).
      exists ([c] :: ss). split; [simpl; now subst|].
      constructor; [|assumption]. exists c. auto.
Qed.

End RegexFacts.

(* ------------------------------------------------------------------------ *)
(** ** The markdown table parser *)

Module ParserFacts.
Import Js Regex Docs Server Props JsFacts RegexFacts.

Lemma isPipe_eq (c : char) : isPipe c = true <-> c = ch_pipe.
Proof. apply char_eqb_eq. Qed.

(** The lines the pattern [/^\|?[\s\-:|]+\|/] matches: a "|" that is not
    the first code unit, with only code units of the class before it. *)
Lemma isSeparatorLine_iff (line : jsstring) :
  isSeparatorLine line = true <->
  exists pre post,
    line = pre ++ ch_pipe :: post /\ pre <> [] /\
    forallb separatorClass pre = true.
Proof.
  unfold isSeparatorLine. rewrite matchesAtStart_spec. split.
  - intros (w & rest & -> & Hw).
    destruct Hw as (o & w1 & -> & Ho & (m & e & -> & Hm & (x & -> & Hx))).
    destruct Hm as (a & b & -> & (c & -> & Hc) & Hb).
    apply lang_star_cls in Hb. apply isPipe_eq in Hx. subst x.
    exists (o ++ c :: b), rest. repeat split.
    + repeat rewrite <- app_assoc. reflexivity.
    + destruct o; discriminate.
    + rewrite forallb_app. simpl. rewrite Hc, Hb.
      destruct Ho as [(y & -> & Hy)| ->]; [|reflexivity].
      apply isPipe_eq in Hy. subst y. reflexivity.
  - intros (pre & post & -> & Hne & Hall).
    destruct pre as [|c b]; [contradiction|].
    simpl in Hall. apply andb_true_iff in Hall as [Hc Hb].
    exists ((c :: b) ++ [ch_pipe]), post. split.
    + rewrite <- app_assoc. reflexivity.
    + exists [], ((c :: b) ++ [ch_pipe]). split; [reflexivity|].
      split; [right; reflexivity|].
      exists (c :: b), [ch_pipe]. split; [reflexivity|]. split.
      * exists [c], b. split; [reflexivity|]. split.
        -- exists c. auto.
        -- now apply lang_star_cls.
      * exists ch_pipe. auto.
Qed.

(** A line the pattern matches has a "|" after its first code unit. *)
Lemma isSeparatorLine_pipe (line : jsstring) :
  isSeparatorLine line = true -> existsb isPipe (tl line) = true.
Proof.
  intros H. apply isSeparatorLine_iff in H as (pre & post & -> & Hne & _).
  destruct pre as [|c b]; [contradiction|]. simpl.
  rewrite existsb_app. simpl.
  replace (isPipe ch_pipe) with true by reflexivity.
  simpl. apply orb_true_r.
Qed.

(** Among the lines made of "|", "-", ":" and white space only, the
    pattern matches exactly those with a "|" after the first code unit. *)
Lemma separatorOnly_matched (line : jsstring) :
  separatorOnly line = true ->
  isSeparatorLine line = existsb isPipe (tl line).
Proof.
  intros Hall. destruct (existsb isPipe (tl line)) eqn:E.
  - apply isSeparatorLine_iff.
    destruct line as [|c t]; [discriminate|]. simpl in E.
    apply existsb_exists in E as (x & Hin & Hx).
    apply isPipe_eq in Hx. subst x.
    apply in_split in Hin as (t1 & t2 & ->).
    exists (c :: t1), t2. repeat split; [discriminate|].
    unfold separatorOnly in Hall.
    change (c :: t1 ++ ch_pipe :: t2) with ((c :: t1) ++ ch_pipe :: t2) in Hall.
    rewrite forallb_app in Hall. now apply andb_true_iff in Hall as [H _].
  - destruct (isSeparatorLine line) eqn:S; [|reflexivity].
    apply isSeparatorLine_pipe in S. congruence.
Qed.

Lemma parseLine_fold (lines : list jsstring) (rows : list (list jsstring)) :
  fold_left parseLine lines rows =
  rows ++ List.map parseCells (List.filter rowLine lines).
Proof.
  revert rows. induction lines as [|line rest IH]; intros rows; simpl.
  - now rewrite app_nil_r.
  - rewrite IH. unfold parseLine, rowLine.
    destruct (isSeparatorLine line); simpl; [reflexivity|].
    destruct (lengthZ (parseCells line) >? 0); simpl; [|reflexivity].
    now rewrite <- app_assoc.
Qed.

(** The grid: the cells of the lines that are kept, in order. *)
Lemma parseRows_rowLines (tableText : jsstring) :
  parseRows tableText =
  List.map parseCells (List.filter rowLine (tableLines tableText)).
Proof. unfold parseRows. now rewrite parseLine_fold. Qed.

(** The test looks at the start of a line only: a row whose first cell is
    empty is matched as well, and gives no row. *)
Example leading_empty_cell_matched :
  isSeparatorLine (str "| | A |") = true /\ parseRows (str "| | A |") = [].
Proof. split; vm_compute; reflexivity. Qed.

End ParserFacts.

(* ------------------------------------------------------------------------ *)
(** ** The occurrence search of FormatDoc *)

Module SearchFacts.
Import Js Regex Docs Server Props JsFacts.

Lemma forEachM_app (A B : Type) (body : list B -> A -> option (list B))
  (g : A -> list B) (l : list A) :
  (forall x s, In x l -> body s x = Some (s ++ g x)) ->
  forall s, forEachM body l s = Some (s ++ flat_map g l).
Proof.
  induction l as [|x rest IH]; intros H s; simpl.
  - now rewrite app_nil_r.
  - rewrite H by now left. rewrite IH by (intros; apply H; now right).
    now rewrite app_assoc.
Qed.

Lemma flat_map_nested (A B C : Type) (f : A -> list B) (g : B -> list C)
  (l : list A) :
  flat_map g (flat_map f l) = flat_map (fun x => flat_map g (f x)) l.
Proof.
  induction l as [|x rest IH]; simpl; [reflexivity|].
  now rewrite flat_map_app, IH.
Qed.

Lemma len_app_one (pre : jsstring) (c : char) :
  len (pre ++ [c]) = len pre + 1.
Proof. unfold len. rewrite length_app. simpl. lia. Qed.

Lemma len_nonneg (s : jsstring) : 0 <= len s.
Proof. unfold len. lia. Qed.

(** With a target that is not empty and fuel beyond the length of what is
    left of the text, the loop ends and has recorded every position at
    which the target begins. *)
Lemma whileFound_all (target : jsstring) (startIndex : Z) :
  target <> [] ->
  forall (rest pre : jsstring) (fuel : nat) (occurrences : list Occurrence),
    (List.length rest < fuel)%nat ->
    whileFound fuel (pre ++ rest) target startIndex
      (scan target rest (len pre)) occurrences =
    Some (occurrences ++
          List.map (fun k => {| start := startIndex + k;
                                end_ := startIndex + k + len target |})
                   (matchPositions target rest (len pre))).
Proof.
  intros Hne. induction rest as [|c rest' IH]; intros pre fuel occ Hfuel.
  - destruct fuel as [|fuel']; [simpl in Hfuel; lia|].
    destruct target as [|t0 target']; [contradiction|].
    simpl. now rewrite app_nil_r.
  - destruct fuel as [|fuel']; [simpl in Hfuel; lia|].
    simpl in Hfuel.
    assert (Hpre : pre ++ c :: rest' = (pre ++ [c]) ++ rest')
      by now rewrite <- app_assoc.
    simpl scan. simpl matchPositions.
    destruct (startsWith target (c :: rest')) eqn:E.
    + simpl whileFound.
      pose proof (len_nonneg pre) as Hk.
      destruct (len pre =? -1) eqn:N; [apply Z.eqb_eq in N; lia|].
      rewrite Hpre. rewrite <- (len_app_one pre c).
      rewrite indexOf_skipn.
      rewrite IH by lia.
      rewrite len_app_one. simpl. now rewrite <- app_assoc.
    + rewrite Hpre. rewrite <- (len_app_one pre c).
      rewrite IH by lia. reflexivity.
Qed.

(** With an empty target the loop never ends: [indexOf] of the empty
    string is never -1. *)
Lemma whileFound_empty_target (fuel : nat) (text : jsstring)
  (startIndex index : Z) (occurrences : list Occurrence) :
  0 <= index ->
  whileFound fuel text [] startIndex index occurrences = None.
Proof.
  revert index occurrences.
  induction fuel as [|fuel' IH]; intros index occ Hi; simpl; [reflexivity|].
  destruct (index =? -1) eqn:N; [apply Z.eqb_eq in N; lia|].
  apply IH. unfold indexOf.
  set (start := Z.min (Z.max (index + 1) 0) (len text)).
  assert (E : forall rest, scan [] rest start = start)
    by (intros [|? ?]; reflexivity).
  rewrite E. pose proof (len_nonneg text). lia.
Qed.

(** So the search for an empty target in a text run does not come back,
    whatever the fuel. *)
Lemma searchElem_empty_target (fuel : nat) (elem : ParagraphElement)
  (occurrences : list Occurrence) :
  runsOfElem elem <> [] ->
  searchElem fuel [] occurrences elem = None.
Proof.
  unfold runsOfElem, searchElem.
  destruct (textRun elem) as [run|]; [|contradiction].
  destruct (content run) as [text|]; [|contradiction].
  destruct (truthy text); [|contradiction].
  intros _. apply whileFound_empty_target.
  destruct (scan_lower [] text 0) as [E|E]; rewrite indexOf_0; [|assumption].
  destruct text; discriminate.
Qed.

Lemma searchElem_all (fuel : nat) (target : jsstring)
  (elem : ParagraphElement) (occurrences : list Occurrence) :
  target <> [] ->
  (forall r, In r (runsOfElem elem) -> (List.length (snd r) < fuel)%nat) ->
  searchElem fuel target occurrences elem =
  Some (occurrences ++ flat_map (occurrencesIn target) (runsOfElem elem)).
Proof.
  intros Hne Hfuel. unfold searchElem, runsOfElem in *.
  destruct (textRun elem) as [run|]; [|simpl; now rewrite app_nil_r].
  destruct (content run) as [text|]; [|simpl; now rewrite app_nil_r].
  destruct (truthy text); [|simpl; now rewrite app_nil_r].
  rewrite indexOf_0.
  pose proof (whileFound_all (orElse (startIndex elem) 0) Hne text []) as H.
  simpl app in H. change (len []) with 0 in H.
  rewrite H by (apply (Hfuel (orElse (startIndex elem) 0, text)); now left).
  simpl. now rewrite app_nil_r.
Qed.

Lemma searchElement_all (fuel : nat) (target : jsstring)
  (element : StructuralElement) (occurrences : list Occurrence) :
  target <> [] ->
  (forall r, In r (runsOfElement element) ->
             (List.length (snd r) < fuel)%nat) ->
  searchElement fuel target occurrences element =
  Some (occurrences ++ flat_map (occurrencesIn target) (runsOfElement element)).
Proof.
  intros Hne Hfuel. unfold searchElement, runsOfElement in *.
  destruct (paragraph element) as [p|]; [|simpl; now rewrite app_nil_r].
  destruct (elements p) as [elems|]; [|simpl; now rewrite app_nil_r].
  rewrite (forEachM_app (searchElem fuel target)
             (fun e => flat_map (occurrencesIn target) (runsOfElem e))).
  - now rewrite flat_map_nested.
  - intros e s Hin. apply searchElem_all; [assumption|].
    intros r Hr. apply Hfuel. apply in_flat_map. eauto.
Qed.

Lemma enoughFuel_runs (doc : Document) (fuel : nat) :
  (enoughFuel doc <= fuel)%nat ->
  forall r, In r (textRuns doc) -> (List.length (snd r) < fuel)%nat.
Proof.
  unfold enoughFuel. intros Hle r Hin.
  assert (H : (List.length (snd r) <=
               list_max (List.map (fun r => List.length (snd r))
                                  (textRuns doc)))%nat).
  { pose proof (proj1 (list_max_le _ _) (Nat.le_refl
      (list_max (List.map (fun r => List.length (snd r)) (textRuns doc)))))
      as Hall.
    rewrite Forall_forall in Hall. apply Hall.
    apply in_map_iff. eauto. }
  lia.
Qed.

(** The search finds the occurrences of the target: all of them, in
    document order. *)
Lemma findOccurrences_all (fuel : nat) (doc : Document) (target : jsstring) :
  target <> [] ->
  (enoughFuel doc <= fuel)%nat ->
  findOccurrences fuel doc target = Some (occurrencesOf doc target).
Proof.
  intros Hne Hfuel. pose proof (enoughFuel_runs Hfuel) as Hruns.
  unfold findOccurrences, occurrencesOf, textRuns in *.
  destruct (body doc) as [b|]; [|reflexivity].
  destruct (body_content b) as [els|]; [|reflexivity].
  rewrite (forEachM_app (searchElement fuel target)
             (fun e => flat_map (occurrencesIn target) (runsOfElement e))).
  - simpl. now rewrite flat_map_nested.
  - intros e s Hin. apply searchElement_all; [assumption|].
    intros r Hr. apply Hruns. apply in_flat_map. eauto.
Qed.

End SearchFacts.

(* ------------------------------------------------------------------------ *)
(** ** Running a tool; the requests of FormatDoc *)

Module ToolFacts.
Import Js Regex Docs Server Props JsFacts SearchFacts.

Lemma run_await (svc : Service) (history : list Call) (c : Call)
  (k : Resp c -> Prog ToolResult) :
  run svc history (await c k) =
  match svc history c with
  | Resolved x => run svc (history ++ [c]) (k x)
  | Rejected e => (history ++ [c], Some (caught e))
  end.
Proof. unfold await. simpl. destruct (svc history c); reflexivity. Qed.

(** Case analysis on the outcome of the call a handler waits for. *)
Ltac case_outcome :=
  match goal with
  | |- context [match ?o with Resolved _ => _ | Rejected _ => _ end] =>
      destruct o
  end.

Lemma forEachM_invariant (A S : Type) (body : S -> A -> option S)
  (P : S -> Prop) (l : list A) :
  (forall x s s', In x l -> P s -> body s x = Some s' -> P s') ->
  forall s s', P s -> forEachM body l s = Some s' -> P s'.
Proof.
  induction l as [|x rest IH]; intros Hstep s s' Hs; simpl.
  - intros [= <-]. assumption.
  - destruct (body s x) as [s1|] eqn:E; [|discriminate].
    apply IH.
    + intros y t t' Hy. apply Hstep. now right.
    + apply (Hstep x s s1); auto. now left.
Qed.

Lemma applyOccurrence_app (format : FormatInstruction)
  (requests : list Request) (occurrence : Occurrence) :
  applyOccurrence format requests occurrence =
  requests ++ applyOccurrence format [] occurrence.
Proof.
  unfold applyOccurrence. destruct (styleOf format) as [ts fields].
  destruct (lengthZ fields >? 0); destruct (heading format) as [h|];
    try destruct (truthyQ h); simpl;
    repeat rewrite <- app_assoc; simpl; now try rewrite app_nil_r.
Qed.

Lemma applyOccurrence_fold (format : FormatInstruction)
  (occurrences : list Occurrence) (requests : list Request) :
  fold_left (applyOccurrence format) occurrences requests =
  requests ++ flat_map (applyOccurrence format []) occurrences.
Proof.
  revert requests.
  induction occurrences as [|o rest IH]; intros requests; simpl.
  - now rewrite app_nil_r.
  - rewrite IH, applyOccurrence_app. now rewrite <- app_assoc.
Qed.

(** Every request of the batch comes from one instruction and one of the
    occurrences found for it. *)
Lemma formatRequests_origin (fuel : nat) (doc : Document)
  (formatting : list FormatInstruction) (requests : list Request) :
  formatRequests fuel doc formatting = Some requests ->
  forall r, In r requests ->
  exists format occurrences occurrence,
    In format formatting /\
    findOccurrences fuel doc (text format) = Some occurrences /\
    In occurrence occurrences /\
    In r (applyOccurrence format [] occurrence).
Proof.
  unfold formatRequests.
  apply (forEachM_invariant (applyFormat fuel doc)
    (fun reqs => forall r, In r reqs ->
       exists format occurrences occurrence,
         In format formatting /\
         findOccurrences fuel doc (text format) = Some occurrences /\
         In occurrence occurrences /\
         In r (applyOccurrence format [] occurrence))).
  - intros format s s' Hin Hs. unfold applyFormat.
    destruct (findOccurrences fuel doc (text format)) as [occs|] eqn:E;
      [|discriminate].
    intros [= <-] r Hr. rewrite applyOccurrence_fold in Hr.
    apply in_app_or in Hr as [Hr|Hr]; [now apply Hs|].
    apply in_flat_map in Hr as (o & Ho & Hr).
    exists format, occs, o. auto.
  - intros r [].
Qed.

(** The requests one occurrence gives. *)
Lemma applyOccurrence_textStyle (format : FormatInstruction)
  (occurrence : Occurrence) (s e : Z) (ts : TextStyle) (fields : jsstring) :
  In (UpdateTextStyle s e ts fields) (applyOccurrence format [] occurrence) ->
  s = start occurrence /\ e = end_ occurrence /\
  ts = fst (styleOf format) /\
  fields = join [ch_comma] (snd (styleOf format)).
Proof.
  unfold applyOccurrence. destruct (styleOf format) as [ts0 fields0]. simpl.
  destruct (lengthZ fields0 >? 0); destruct (heading format) as [h|];
    try destruct (truthyQ h); simpl; intros H;
    repeat match goal with
           | H : _ \/ _ |- _ => destruct H
           | H : False |- _ => destruct H
           end;
    try discriminate;
    match goal with H : _ = _ |- _ => injection H as <- <- <- <- end; auto.
Qed.

(** The field mask names the fields the instruction sets and no other. *)
Lemma styleOf_mask (format : FormatInstruction) :
  let mask := join [ch_comma] (snd (styleOf format)) in
  includes mask (str "bold") = isSet (bold format) /\
  includes mask (str "italic") = isSet (italic format) /\
  includes mask (str "underline") = isSet (underline format).
Proof.
  unfold styleOf.
  destruct (bold format), (italic format), (underline format);
    repeat split; vm_compute; reflexivity.
Qed.

Lemma styleOf_textStyle (format : FormatInstruction) :
  let ts := fst (styleOf format) in
  ts_bold ts = bold format /\ ts_italic ts = italic format /\
  ts_underline ts = underline format.
Proof.
  unfold styleOf.
  destruct (bold format), (italic format), (underline format); simpl; auto.
Qed.

(** The calls of FormatDoc: nothing, or [get] and then at most one batch,
    which holds the requests built from the document. *)
Lemma FormatDoc_calls (fuel : nat) (cl : Clients) (svc : Service)
  (documentId : jsstring) (formatting : list FormatInstruction)
  (id : Nullable jsstring) (requests : list Request) :
  In (DocumentsBatchUpdate id requests)
     (fst (run svc [] (FormatDoc fuel cl documentId formatting))) ->
  exists doc,
    svc [] (DocumentsGet documentId) = Resolved doc /\
    formatRequests fuel doc formatting = Some requests.
Proof.
  unfold FormatDoc. destruct (docsClient cl); simpl negb; cbv iota.
  2:{ simpl. intros []. }
  rewrite run_await.
  destruct (svc [] (DocumentsGet documentId)) as [doc|err] eqn:G.
  2:{ simpl. intros [H|[]]. discriminate. }
  destruct (formatRequests fuel doc formatting) as [reqs|] eqn:F.
  2:{ simpl. intros [H|[]]. discriminate. }
  destruct (lengthZ reqs >? 0).
  - rewrite run_await.
    destruct (svc _ (DocumentsBatchUpdate (Val documentId) reqs)); simpl;
      intros [H|[H|[]]]; try discriminate;
      injection H as <- <-; exists doc; auto.
  - simpl. intros [H|[]]. discriminate.
Qed.

End ToolFacts.

(* ------------------------------------------------------------------------ *)
(** ** The table search of ConvertToTable *)

Module LocateFacts.
Import Js Regex Docs Server Props JsFacts.

Lemma fold_left_flat_map (A B S : Type) (f : S -> B -> S) (g : A -> list B)
  (l : list A) (s : S) :
  fold_left f (flat_map g l) s =
  fold_left (fun st x => fold_left f (g x) st) l s.
Proof.
  revert s. induction l as [|x rest IH]; intros s; simpl; [reflexivity|].
  now rewrite fold_left_app, IH.
Qed.

Lemma fold_left_ext_in (A S : Type) (f g : S -> A -> S) (l : list A) (s : S) :
  (forall st x, f st x = g st x) -> fold_left f l s = fold_left g l s.
Proof.
  intros H. revert s. induction l as [|x rest IH]; intros s; simpl;
    [reflexivity|]. now rewrite H, IH.
Qed.

Section Lines.

(** The lines of the table text: the first and the last are searched. *)
Variable lines : list jsstring.

Lemma locateElem_runs (st : Z * Z)
  (elem : ParagraphElement) :
  locateElem lines st elem = fold_left (locateRun lines) (runsOfElem elem) st.
Proof.
  unfold locateElem, runsOfElem, locateRun. destruct st as [ts te].
  destruct (textRun elem) as [run|]; [|reflexivity].
  destruct (content run) as [text|]; [|reflexivity].
  destruct (truthy text); [|reflexivity].
  simpl.
  destruct (negb (indexOf text (hd [] lines) 0 =? -1) && (ts =? -1));
    [|reflexivity].
  destruct (negb (indexOf text (last lines []) 0 =? -1)); reflexivity.
Qed.

Lemma locateElement_runs (st : Z * Z)
  (element : StructuralElement) :
  locateElement lines st element =
  fold_left (locateRun lines) (runsOfElement element) st.
Proof.
  unfold locateElement, runsOfElement.
  destruct (paragraph element) as [p|]; [|reflexivity].
  destruct (elements p) as [elems|]; [|reflexivity].
  rewrite fold_left_flat_map. apply fold_left_ext_in.
  intros. apply locateElem_runs.
Qed.

(** The search is a single pass over the text runs. *)
Lemma locateTable_runs (doc : Document) :
  locateTable doc lines =
  fold_left (locateRun lines) (textRuns doc) (-1, -1).
Proof.
  unfold locateTable, textRuns.
  destruct (body doc) as [b|]; [|reflexivity].
  destruct (body_content b) as [els|]; [|reflexivity].
  rewrite fold_left_flat_map. apply fold_left_ext_in.
  intros. apply locateElement_runs.
Qed.

(** Runs without the first line leave the state as it is. *)
Lemma locate_absent (runs : list (Z * jsstring))
  (st : Z * Z) :
  (forall r, In r runs -> indexOf (snd r) (hd [] lines) 0 = -1) ->
  fold_left (locateRun lines) runs st = st.
Proof.
  revert st. induction runs as [|r rest IH]; intros st H; simpl;
    [reflexivity|].
  rewrite IH by (intros; apply H; now right).
  unfold locateRun. rewrite (H r) by now left. reflexivity.
Qed.

(** Once the start is set, no later run changes the state. *)
Lemma locate_settled (runs : list (Z * jsstring))
  (st : Z * Z) :
  fst st <> -1 -> fold_left (locateRun lines) runs st = st.
Proof.
  revert st. induction runs as [|r rest IH]; intros st H; simpl;
    [reflexivity|].
  assert (E : locateRun lines st r = st).
  { unfold locateRun. apply Z.eqb_neq in H. rewrite H.
    now rewrite andb_false_r. }
  rewrite E. now apply IH.
Qed.

(** The first run that holds the first line decides both offsets. *)
Lemma locate_first (pre post : list (Z * jsstring))
  (s : Z) (text : jsstring) :
  (forall r, In r pre -> indexOf (snd r) (hd [] lines) 0 = -1) ->
  indexOf text (hd [] lines) 0 <> -1 ->
  s + indexOf text (hd [] lines) 0 <> -1 ->
  fold_left (locateRun lines) (pre ++ (s, text) :: post) (-1, -1) =
  (s + indexOf text (hd [] lines) 0,
   if indexOf text (last lines []) 0 =? -1 then -1
   else s + indexOf text (last lines []) 0 + len (last lines [])).
Proof.
  intros Hpre Hi Hs.
  rewrite fold_left_app, (@locate_absent pre (-1, -1) Hpre). simpl.
  rewrite locate_settled.
  - unfold locateRun. simpl.
    apply Z.eqb_neq in Hi. rewrite Hi. simpl.
    destruct (indexOf text (last lines []) 0 =? -1); reflexivity.
  - unfold locateRun. simpl.
    apply Z.eqb_neq in Hi. rewrite Hi. simpl. assumption.
Qed.

End Lines.

(** The first element with a property splits a list in one way only. *)
Lemma first_split_unique (A : Type) (P : A -> Prop)
  (pre pre' post post' : list A) (x x' : A) :
  pre ++ x :: post = pre' ++ x' :: post' ->
  (forall r, In r pre -> ~ P r) -> P x ->
  (forall r, In r pre' -> ~ P r) -> P x' ->
  pre = pre' /\ x = x' /\ post = post'.
Proof.
  revert pre'. induction pre as [|p pre0 IH]; intros pre' E Hpre Hx Hpre' Hx'.
  - destruct pre' as [|p' pre0']; simpl in E.
    + injection E as <- <-. auto.
    + injection E as <- _. exfalso. apply (Hpre' x); [now left|assumption].
  - destruct pre' as [|p' pre0']; simpl in E.
    + injection E as -> _. exfalso. apply (Hpre x'); [now left|assumption].
    + injection E as <- E.
      destruct (IH pre0' E) as (-> & -> & ->); auto.
      * intros r Hr. apply Hpre. now right.
      * intros r Hr. apply Hpre'. now right.
Qed.

Lemma indexOf_0_range (text pat : jsstring) :
  indexOf text pat 0 = -1 \/ 0 <= indexOf text pat 0.
Proof. rewrite indexOf_0. apply scan_lower. Qed.

(** The outcome of the search: the first line is in no run, or the first
    run that holds it is the one that counts. *)
Lemma locate_cases (lines : list jsstring) (runs : list (Z * jsstring)) :
  (forall r, In r runs -> 0 <= fst r) ->
  (forall r, In r runs -> indexOf (snd r) (hd [] lines) 0 = -1) \/
  exists pre s text post,
    runs = pre ++ (s, text) :: post /\
    (forall r, In r pre -> indexOf (snd r) (hd [] lines) 0 = -1) /\
    indexOf text (hd [] lines) 0 <> -1 /\
    s + indexOf text (hd [] lines) 0 <> -1.
Proof.
  induction runs as [|[s text] rest IH]; intros Hnn.
  - left. intros r [].
  - destruct (Z.eq_dec (indexOf text (hd [] lines) 0) (-1)) as [E|E].
    + destruct IH as [IH|(pre & s' & text' & post & -> & Hpre & Hi & Hs)].
      * intros r Hr. apply Hnn. now right.
      * left. intros r [<-|Hr]; [assumption|now apply IH].
      * right. exists ((s, text) :: pre), s', text', post.
        repeat split; try assumption.
        intros r [<-|Hr]; [assumption|now apply Hpre].
    + right. exists [], s, text, rest. repeat split; try assumption.
      * intros r [].
      * specialize (Hnn (s, text) (or_introl eq_refl)). simpl in Hnn.
        destruct (indexOf_0_range text (hd [] lines)); lia.
Qed.

End LocateFacts.

(* ------------------------------------------------------------------------ *)
(** ** [formatMarkdownTable] *)

Module FenceFacts.
Import Js Regex Docs Server Props JsFacts.

Lemma formatLoop_emitted (lines : list jsstring) (inTable : bool)
  (acc : list OutLine) :
  (let '(b, out) := formatLoop lines inTable acc in
   if b then out ++ [Fence] else out) = acc ++ emitted lines inTable.
Proof.
  revert inTable acc.
  induction lines as [|line rest IH]; intros inTable acc; simpl.
  - destruct inTable; [reflexivity|now rewrite app_nil_r].
  - destruct (includes line (str "|")); destruct inTable; simpl;
      rewrite IH; rewrite <- app_assoc; reflexivity.
Qed.

Lemma formattedLines_emitted (text : jsstring) :
  formattedLines text = emitted (split ch_nl text) false.
Proof.
  unfold formattedLines.
  pose proof (formatLoop_emitted (split ch_nl text) false []) as H.
  destruct (formatLoop (split ch_nl text) false []) as [b out].
  exact H.
Qed.

Lemma emitted_pushed (lines : list jsstring) (inTable : bool) :
  pushedLines (emitted lines inTable) = lines.
Proof.
  revert inTable. induction lines as [|line rest IH]; intros inTable; simpl.
  - destruct inTable; reflexivity.
  - destruct (includes line (str "|")); destruct inTable; simpl;
      now rewrite IH.
Qed.

(** Fences come in pairs: their number is even when the loop starts
    outside a table. *)
Lemma emitted_count (lines : list jsstring) (inTable : bool) :
  Nat.even (countFence (emitted lines inTable)) = negb inTable.
Proof.
  revert inTable. induction lines as [|line rest IH]; intros inTable.
  - destruct inTable; reflexivity.
  - simpl emitted.
    destruct (includes line (str "|")); destruct inTable;
      cbn [app countFence]; try rewrite Nat.even_succ, <- Nat.negb_even;
      rewrite IH; reflexivity.
Qed.

Lemma emitted_fenced (lines : list jsstring) (inTable : bool) :
  fenced (emitted lines inTable) inTable = true.
Proof.
  revert inTable. induction lines as [|line rest IH]; intros inTable.
  - destruct inTable; reflexivity.
  - simpl emitted.
    destruct (includes line (str "|")) eqn:E; destruct inTable;
      cbn [app fenced negb]; rewrite ?E, IH; reflexivity.
Qed.

Lemma emitted_plain (lines : list jsstring) :
  (forall line, In line lines -> includes line (str "|") = false) ->
  emitted lines false = List.map Pushed lines.
Proof.
  induction lines as [|line rest IH]; intros H; simpl; [reflexivity|].
  rewrite (H line) by now left. simpl. f_equal.
  apply IH. intros. apply H. now right.
Qed.

Lemma render_pushed (lines : list jsstring) :
  List.map render (List.map Pushed lines) = lines.
Proof. rewrite map_map. simpl. apply map_id. Qed.

(** A text without "|" is returned as it is. *)
Lemma formatMarkdownTable_plain (text : jsstring) :
  includes text (str "|") = false -> formatMarkdownTable text = text.
Proof.
  intros H. unfold formatMarkdownTable.
  rewrite formattedLines_emitted, emitted_plain, render_pushed.
  - apply join_split.
  - intros line Hin. change (str "|") with [ch_pipe] in *.
    rewrite includes_single in *.
    destruct (existsb (char_eqb ch_pipe) line) eqn:E; [|reflexivity].
    apply existsb_In in E. apply (@split_incl ch_nl text line ch_pipe Hin) in E.
    apply existsb_In in E. congruence.
Qed.

Lemma countFence_app (x y : list OutLine) :
  countFence (x ++ y) = (countFence x + countFence y)%nat.
Proof.
  induction x as [|[l|] rest IH]; simpl; [reflexivity|assumption|].
  now rewrite IH.
Qed.

Lemma fenced_app (x y : list OutLine) (open : bool) :
  fenced (x ++ y) open = true ->
  fenced y (xorb open (Nat.odd (countFence x))) = true.
Proof.
  revert open. induction x as [|[l|] rest IH]; intros open; simpl.
  - now rewrite xorb_false_r.
  - intros H. apply andb_true_iff in H as [_ H]. now apply IH.
  - intros H. apply IH in H. rewrite Nat.odd_succ, <- Nat.negb_odd.
    destruct open, (Nat.odd (countFence rest)); exact H.
Qed.

Lemma fenced_closes (post : list OutLine) :
  fenced post true = true ->
  exists block rest, post = block ++ Fence :: rest /\ countFence block = O.
Proof.
  induction post as [|[l|] rest IH]; simpl; intros H.
  - discriminate.
  - apply andb_true_iff in H as [_ H].
    destruct (IH H) as (block & rest' & -> & Hc).
    exists (Pushed l :: block), rest'. auto.
  - exists [], rest. auto.
Qed.

Lemma odd_opens (pre : list OutLine) :
  Nat.odd (countFence pre) = true ->
  exists before block,
    pre = before ++ Fence :: block /\ countFence block = O /\
    Nat.even (countFence before) = true.
Proof.
  induction pre as [|x p IH] using rev_ind; [discriminate|].
  rewrite countFence_app. destruct x as [l|]; simpl.
  - rewrite Nat.add_0_r. intros H.
    destruct (IH H) as (before & block & -> & Hc & He).
    exists before, (block ++ [Pushed l]). repeat split.
    + now rewrite <- app_assoc.
    + rewrite countFence_app, Hc. reflexivity.
    + assumption.
  - rewrite Nat.add_1_r, Nat.odd_succ. intros H.
    exists p, []. auto.
Qed.

(** In a fenced output, a line with a "|" sits in a block that an odd
    fence opens and the next fence closes. *)
Lemma fenced_between (pre post : list OutLine) (line : jsstring) :
  fenced (pre ++ Pushed line :: post) false = true ->
  includes line (str "|") = true ->
  exists before block1 block2 rest,
    pre = before ++ Fence :: block1 /\ post = block2 ++ Fence :: rest /\
    countFence block1 = O /\ countFence block2 = O /\
    Nat.even (countFence before) = true.
Proof.
  intros H Hpipe. apply fenced_app in H. simpl in H. rewrite Hpipe in H.
  apply andb_true_iff in H as [Hodd Hpost]. rewrite Hodd in Hpost.
  destruct (odd_opens pre Hodd) as (before & block1 & -> & H1 & He).
  destruct (fenced_closes post Hpost) as (block2 & rest & -> & H2).
  exists before, block1, block2, rest. auto.
Qed.

End FenceFacts.

(* ------------------------------------------------------------------------ *)
(** ** The calls of ConvertToTable; searches that find nothing *)

Module ConvertFacts.
Import Js Regex Docs Server Props JsFacts SearchFacts ToolFacts LocateFacts.

Lemma rows_not_empty (A : Type) (rows : list A) :
  rows <> [] -> (lengthZ rows =? 0) = false.
Proof.
  intros H. destruct rows; [contradiction|].
  unfold lengthZ. simpl List.length. apply Z.eqb_neq. lia.
Qed.

(** The first line is in no run: an error result after the [get]. *)
Lemma ConvertToTable_not_found (cl : Clients) (svc : Service)
  (documentId tableText : jsstring) (doc : Document) :
  docsClient cl = true ->
  parseRows tableText <> [] ->
  svc [] (DocumentsGet documentId) = Resolved doc ->
  fst (locateTable doc (tableLines tableText)) = -1 ->
  run svc [] (ConvertToTable cl documentId tableText) =
  ([DocumentsGet documentId],
   Some (failure (crossMark ++ str " Could not find table text in document"))).
Proof.
  intros Hcl Hrows Hget Hloc.
  unfold ConvertToTable. rewrite Hcl. simpl negb. cbv iota.
  rewrite (rows_not_empty Hrows). rewrite run_await, Hget.
  destruct (locateTable doc (tableLines tableText)) as [ts te].
  simpl in Hloc. subst ts. reflexivity.
Qed.

(** The first line is found: the first batch follows the [get], and the
    second follows when the first is accepted. *)
Lemma ConvertToTable_found (cl : Clients) (svc : Service)
  (documentId tableText : jsstring) (doc : Document)
  (tableStartIndex tableEndIndex : Z) :
  docsClient cl = true ->
  parseRows tableText <> [] ->
  svc [] (DocumentsGet documentId) = Resolved doc ->
  locateTable doc (tableLines tableText) = (tableStartIndex, tableEndIndex) ->
  tableStartIndex <> -1 ->
  let rows := parseRows tableText in
  let batch1 :=
    DocumentsBatchUpdate (Val documentId)
      (tableRequests rows tableStartIndex tableEndIndex) in
  let batch2 :=
    DocumentsBatchUpdate (Val documentId) (cellRequests rows tableStartIndex) in
  let calls := fst (run svc [] (ConvertToTable cl documentId tableText)) in
  (calls = [DocumentsGet documentId; batch1] \/
   calls = [DocumentsGet documentId; batch1; batch2]) /\
  (svc [DocumentsGet documentId] batch1 = Resolved tt ->
   cellRequests rows tableStartIndex <> [] ->
   calls = [DocumentsGet documentId; batch1; batch2]).
Proof.
  intros Hcl Hrows Hget Hloc Hts rows batch1 batch2 calls.
  subst calls. unfold ConvertToTable. rewrite Hcl. simpl negb. cbv iota.
  rewrite (rows_not_empty Hrows). rewrite run_await, Hget, Hloc.
  apply Z.eqb_neq in Hts. rewrite Hts.
  rewrite run_await. fold rows. fold batch1. simpl app.
  destruct (svc [DocumentsGet documentId] batch1) as [[]|err] eqn:B1.
  - destruct (lengthZ (cellRequests rows tableStartIndex) >? 0) eqn:L.
    + rewrite run_await. fold batch2.
      destruct (svc _ batch2); simpl; split; auto.
    + simpl. split; [auto|]. intros _ Hne.
      apply rows_not_empty in Hne. apply Z.eqb_neq in Hne.
      rewrite Z.gtb_ltb, Z.ltb_ge in L. unfold lengthZ in *. lia.
  - simpl. split; [auto|]. discriminate.
Qed.

(** The second batch holds InsertText requests only. *)
Lemma cellLoop_no_delete (ts r c : Z) (row : list jsstring)
  (acc : list Request) :
  existsb isDelete acc = false ->
  existsb isDelete (cellLoop ts r c row acc) = false.
Proof.
  revert c acc. induction row as [|cellText row' IH]; intros c acc Hacc; simpl;
    [assumption|].
  apply IH. destruct (truthy cellText); [|assumption].
  rewrite existsb_app, Hacc. reflexivity.
Qed.

Lemma cellRequests_no_delete (rows : list (list jsstring)) (ts : Z) :
  existsb isDelete (cellRequests rows ts) = false.
Proof.
  unfold cellRequests. generalize 0 at 1.
  assert (H : forall r acc,
            existsb isDelete acc = false ->
            existsb isDelete (rowLoop ts r rows acc) = false).
  { induction rows as [|row rs IH]; intros r acc Hacc; simpl; [assumption|].
    apply IH. now apply cellLoop_no_delete. }
  intros r. now apply H.
Qed.

(** The first batch holds a DeleteRange exactly when the end found lies
    beyond the start. *)
Lemma tableRequests_delete (rows : list (list jsstring)) (ts te : Z) :
  existsb isDelete (tableRequests rows ts te) = (te >? ts).
Proof. unfold tableRequests. destruct (te >? ts); reflexivity. Qed.

Lemma forEachM_same (A S : Type) (body : S -> A -> option S) (l : list A) :
  (forall x s, In x l -> body s x = Some s) ->
  forall s, forEachM body l s = Some s.
Proof.
  induction l as [|x rest IH]; intros H s; simpl; [reflexivity|].
  rewrite H by now left. apply IH. intros. apply H. now right.
Qed.

(** A target that is in no run has no occurrence. *)
Lemma findOccurrences_notFound (fuel : nat) (doc : Document)
  (target : jsstring) :
  (0 < fuel)%nat -> notFound doc target ->
  findOccurrences fuel doc target = Some [].
Proof.
  intros Hfuel Hnf. unfold notFound, findOccurrences, textRuns in *.
  destruct (body doc) as [b|]; [|reflexivity].
  destruct (body_content b) as [els|]; [|reflexivity].
  apply forEachM_same. intros element occ Hel.
  unfold searchElement.
  assert (Hruns : forall r, In r (runsOfElement element) ->
                            indexOf (snd r) target 0 = -1).
  { intros r Hr. apply Hnf. apply in_flat_map. eauto. }
  unfold runsOfElement in Hruns.
  destruct (paragraph element) as [p|]; [|reflexivity].
  destruct (elements p) as [elems|]; [|reflexivity].
  apply forEachM_same. intros elem occ' Helem.
  assert (Hrun : forall r, In r (runsOfElem elem) ->
                           indexOf (snd r) target 0 = -1).
  { intros r Hr. apply Hruns. apply in_flat_map. eauto. }
  unfold searchElem. unfold runsOfElem in Hrun.
  destruct (textRun elem) as [run|]; [|reflexivity].
  destruct (content run) as [text|]; [|reflexivity].
  destruct (truthy text); [|reflexivity].
  pose proof (Hrun (orElse (startIndex elem) 0, text) (or_introl eq_refl))
    as E.
  simpl in E. rewrite E.
  destruct fuel; [lia|reflexivity].
Qed.

Lemma applyFormat_notFound (fuel : nat) (doc : Document)
  (requests : list Request) (format : FormatInstruction) :
  (0 < fuel)%nat -> notFound doc (text format) ->
  applyFormat fuel doc requests format = Some requests.
Proof.
  intros Hfuel Hnf. unfold applyFormat.
  now rewrite findOccurrences_notFound.
Qed.

End ConvertFacts.

(* ------------------------------------------------------------------------ *)
(** ** Searches and calls that do not come back, calls that are rejected *)

Module FailureFacts.
Import Js Regex Docs Server Props Dispatch MoreProps.
Import JsFacts SearchFacts ToolFacts.

Lemma forEachM_none (A S : Type) (body : S -> A -> option S) (l : list A)
  (x : A) :
  In x l -> (forall s, body s x = None) ->
  forall s, forEachM body l s = None.
Proof.
  intros Hin Hx. induction l as [|y rest IH]; intros s; [destruct Hin|].
  simpl. destruct Hin as [->|Hin]; [now rewrite Hx|].
  destruct (body s y); [now apply IH|reflexivity].
Qed.

Lemma flat_map_not_nil (A B : Type) (f : A -> list B) (l : list A) :
  flat_map f l <> [] -> exists x, In x l /\ f x <> [].
Proof.
  induction l as [|y rest IH]; simpl; [contradiction|].
  destruct (f y) as [|b bs] eqn:E.
  - intros H. destruct (IH H) as (x & Hx & Hf). eauto.
  - intros _. exists y. split; [now left|]. rewrite E. discriminate.
Qed.

(** The search for the empty string in a document with a text run does
    not end. *)
Lemma findOccurrences_empty_target (fuel : nat) (doc : Document) :
  textRuns doc <> [] -> findOccurrences fuel doc [] = None.
Proof.
  unfold textRuns, findOccurrences.
  destruct (body doc) as [b|]; [|contradiction].
  destruct (body_content b) as [els|]; [|contradiction].
  intros H. apply flat_map_not_nil in H as (element & Hel & Hruns).
  apply forEachM_none with (x := element); [assumption|].
  intros occ. unfold searchElement. unfold runsOfElement in Hruns.
  destruct (paragraph element) as [p|]; [|contradiction].
  destruct (elements p) as [elems|]; [|contradiction].
  apply flat_map_not_nil in Hruns as (elem & Helem & Hrun).
  apply forEachM_none with (x := elem); [assumption|].
  intros occ'. now apply searchElem_empty_target.
Qed.

Lemma run_extends (R : Type) (svc : Service) (p : Prog R) :
  forall history, exists calls, fst (run svc history p) = history ++ calls.
Proof.
  induction p as [r|c k IH|]; intros history; simpl.
  - exists []. now rewrite app_nil_r.
  - destruct (IH (svc history c) (history ++ [c])) as (calls & E).
    exists (c :: calls). rewrite E. now rewrite <- app_assoc.
  - exists []. now rewrite app_nil_r.
Qed.

Lemma app_same_length (A : Type) (a b x y : list A) :
  List.length a = List.length b -> a ++ x = b ++ y -> a = b /\ x = y.
Proof.
  revert b. induction a as [|u a' IH]; intros [|v b'] L E;
    try discriminate; simpl in *.
  - auto.
  - injection L as L. injection E as -> E.
    destruct (IH b' L E) as [-> ->]. auto.
Qed.

(** In a handler body a rejected call is the last call, and the result
    is what the [catch] block returns for the error. *)
Lemma awaits_rejected (svc : Service) (p : Prog ToolResult) :
  Awaits p ->
  forall history h c rest e,
    fst (run svc history p) = h ++ c :: rest ->
    (List.length history <= List.length h)%nat ->
    svc h c = Rejected e ->
    rest = [] /\ snd (run svc history p) = Some (caught e).
Proof.
  induction 1 as [r| |c0 k Hk IH]; intros history h c rest e Htrace Hlen Hrej.
  - simpl in Htrace. apply (f_equal (@List.length Call)) in Htrace.
    rewrite length_app in Htrace. simpl in Htrace. lia.
  - simpl in Htrace. apply (f_equal (@List.length Call)) in Htrace.
    rewrite length_app in Htrace. simpl in Htrace. lia.
  - rewrite run_await in *.
    destruct (svc history c0) as [x|e0] eqn:S0.
    + destruct (Nat.eq_dec (List.length history) (List.length h)) as [L|L].
      * destruct (run_extends svc (k x) (history ++ [c0])) as (calls & E).
        rewrite E, <- app_assoc in Htrace. simpl in Htrace.
        destruct (app_same_length _ _ _ _ L Htrace) as [<- E2].
        injection E2 as <- _. congruence.
      * apply (IH x (history ++ [c0]) h c rest e); try assumption.
        rewrite length_app. simpl. lia.
    + simpl in Htrace |- *.
      assert (L : List.length history = List.length h).
      { apply (f_equal (@List.length Call)) in Htrace.
        repeat rewrite length_app in Htrace. simpl in Htrace. lia. }
      destruct (app_same_length _ _ _ _ L Htrace) as [<- E2].
      injection E2 as <- <-. split; [reflexivity|congruence].
Qed.

Ltac awaits :=
  repeat (cbv zeta; cbn [negb];
          lazymatch goal with
          | |- Awaits (Ret _) => apply Awaits_ret
          | |- Awaits OutOfFuel => apply Awaits_fuel
          | |- Awaits (await _ _) => apply Awaits_call; intros ?
          | |- Awaits (if ?b then _ else _) => destruct b
          | |- Awaits (match ?o with Some _ => _ | None => _ end) =>
              destruct o
          | |- Awaits (let '(_, _) := ?p in _) => destruct p
          end).

(** Every tool is a handler body. *)
Lemma callTool_awaits (fuel : nat) (cl : Clients) (t : ToolCall) :
  Awaits (callTool fuel cl t).
Proof.
  destruct t; cbn [callTool];
    unfold CreateDoc, UpdateDoc, DeleteDoc, FormatDoc, ConvertToTable;
    awaits.
Qed.

End FailureFacts.

(* ------------------------------------------------------------------------ *)
(** ** The cells of the grid *)

Module GridFacts.
Import Js Regex Docs Server Props Dispatch MoreProps.
Import JsFacts ParserFacts.

Lemma dropWhile_incl (p : char -> bool) (s : jsstring) (c : char) :
  In c (dropWhile p s) -> In c s.
Proof.
  induction s as [|x t IH]; simpl; [tauto|].
  destruct (p x); [intros H; right; now apply IH|tauto].
Qed.

Lemma dropWhile_idem (p : char -> bool) (s : jsstring) :
  dropWhile p (dropWhile p s) = dropWhile p s.
Proof.
  induction s as [|x t IH]; simpl; [reflexivity|].
  destruct (p x) eqn:E; [assumption|]. simpl. now rewrite E.
Qed.

Lemma dropWhile_head (p : char -> bool) (s t : jsstring) (c : char) :
  dropWhile p s = c :: t -> p c = false.
Proof.
  induction s as [|x s' IH]; simpl; [discriminate|].
  destruct (p x) eqn:E; [assumption|]. intros [= <- _]. assumption.
Qed.

Lemma dropWhile_all (p : char -> bool) (s : jsstring) :
  forallb p s = true -> dropWhile p s = [].
Proof.
  induction s as [|x t IH]; simpl; [reflexivity|].
  destruct (p x); [assumption|discriminate].
Qed.

Lemma dropWhile_snoc (p : char -> bool) (s : jsstring) (c : char) :
  p c = false -> dropWhile p (s ++ [c]) = dropWhile p s ++ [c].
Proof.
  intros Hc. induction s as [|x t IH]; simpl; [now rewrite Hc|].
  destruct (p x); [assumption|reflexivity].
Qed.

Lemma trim_incl (s : jsstring) (c : char) : In c (trim s) -> In c s.
Proof.
  unfold trim. intros H. apply in_rev in H. apply dropWhile_incl in H.
  apply in_rev in H. now apply dropWhile_incl in H.
Qed.

(** Trimming twice is trimming once. *)
Lemma trim_idem (s : jsstring) : trim (trim s) = trim s.
Proof.
  unfold trim. destruct (dropWhile isSpace s) as [|c a] eqn:Ea;
    [reflexivity|].
  pose proof (dropWhile_head _ _ Ea) as Hc.
  simpl rev. rewrite dropWhile_snoc by assumption.
  rewrite rev_app_distr. simpl. rewrite Hc. simpl.
  rewrite dropWhile_snoc by assumption.
  rewrite rev_involutive, dropWhile_idem.
  now rewrite rev_app_distr.
Qed.

Lemma trim_blank (s : jsstring) : forallb isSpace s = true -> trim s = [].
Proof. intros H. unfold trim. now rewrite (dropWhile_all _ _ H). Qed.

(** No piece of a split holds the separator. *)
Lemma split_no_sep (sep : char) (s piece : jsstring) :
  In piece (split sep s) -> ~ In sep piece.
Proof.
  revert piece. induction s as [|c t IH]; intros piece; simpl.
  - intros [<-|[]] [].
  - pose proof (split_not_nil sep t) as Hne.
    destruct (char_eqb c sep) eqn:E.
    + intros [<-|H]; [intros []|now apply IH].
    + destruct (split sep t) as [|h r]; [contradiction|].
      intros [<-|H].
      * intros [->|Hin].
        -- unfold char_eqb in E. rewrite N.eqb_refl in E. discriminate.
        -- apply (IH h); [now left|assumption].
      * apply IH. now right.
Qed.

(** A cell is not empty, has no white space around it, and is made of
    code units of its line other than "|". *)
Lemma parseCells_cell (line cell : jsstring) :
  In cell (parseCells line) ->
  cell <> [] /\ trim cell = cell /\
  forall c, In c cell -> In c line /\ c <> ch_pipe.
Proof.
  unfold parseCells. rewrite filter_In, in_map_iff.
  intros [(piece & <- & Hpiece) Htruthy]. repeat split.
  - intros E. rewrite E in Htruthy. discriminate.
  - apply trim_idem.
  - apply (@split_incl ch_pipe line piece c Hpiece). now apply trim_incl.
  - intros ->. apply (@split_no_sep ch_pipe line piece Hpiece).
    now apply trim_incl.
Qed.

(** A row comes from a line of the table text that is kept. *)
Lemma parseRows_row (tableText : jsstring) (row : list jsstring) :
  In row (parseRows tableText) ->
  exists line,
    In line (tableLines tableText) /\ rowLine line = true /\
    row = parseCells line.
Proof.
  rewrite parseRows_rowLines, in_map_iff.
  intros (line & <- & Hline). apply filter_In in Hline as [Hin Hrow].
  eauto.
Qed.

Lemma rowLine_cells (line : jsstring) :
  rowLine line = true -> parseCells line <> [].
Proof.
  unfold rowLine. intros H. apply andb_true_iff in H as [_ H].
  intros E. rewrite E in H. discriminate.
Qed.

Lemma parseRows_truthy (tableText : jsstring) (row : list jsstring)
  (cell : jsstring) :
  In row (parseRows tableText) -> In cell row -> truthy cell = true.
Proof.
  intros Hrow Hcell. apply parseRows_row in Hrow as (line & _ & _ & ->).
  apply parseCells_cell in Hcell as (Hne & _).
  destruct cell; [contradiction|reflexivity].
Qed.

(** A blank table text has no row. *)
Lemma parseRows_blank (tableText : jsstring) :
  forallb isSpace tableText = true -> parseRows tableText = [].
Proof.
  intros H. unfold parseRows, tableLines. now rewrite trim_blank.
Qed.

(** The loops over rows and columns, when no cell is empty. *)
Lemma cellLoop_inserts (ts r : Z) (row : list jsstring) :
  (forall cell, In cell row -> truthy cell = true) ->
  forall c acc,
    cellLoop ts r c row acc =
    acc ++ List.map (fun cell => InsertText (ts + 4 + r * 5 + fst cell * 2)
                                            (snd cell))
                    (indexed c row).
Proof.
  induction row as [|cellText rest IH]; intros H c acc; simpl.
  - now rewrite app_nil_r.
  - rewrite (H cellText) by now left.
    rewrite IH by (intros; apply H; now right).
    now rewrite <- app_assoc.
Qed.

Lemma rowLoop_inserts (ts : Z) (rows : list (list jsstring)) :
  (forall row cell, In row rows -> In cell row -> truthy cell = true) ->
  forall r acc,
    rowLoop ts r rows acc =
    acc ++ flat_map
             (fun row =>
                List.map
                  (fun cell =>
                     InsertText (ts + 4 + fst row * 5 + fst cell * 2)
                                (snd cell))
                  (indexed 0 (snd row)))
             (indexed r rows).
Proof.
  induction rows as [|row rest IH]; intros H r acc; simpl.
  - now rewrite app_nil_r.
  - rewrite IH by (intros ? ? ?; apply H; now right).
    rewrite cellLoop_inserts by (intros; apply (H row); [now left|assumption]).
    now rewrite <- app_assoc.
Qed.

Lemma indexed_length (A : Type) (l : list A) (k : Z) :
  List.length (indexed k l) = List.length l.
Proof.
  revert k. induction l as [|x rest IH]; intros k; simpl; [reflexivity|].
  now rewrite IH.
Qed.

Lemma cellInserts_length (rows : list (list jsstring)) (ts : Z) :
  List.length (cellInserts rows ts) = List.length (List.concat rows).
Proof.
  unfold cellInserts.
  assert (H : forall k,
            List.length
              (flat_map
                 (fun row =>
                    List.map
                      (fun cell =>
                         InsertText (ts + 4 + fst row * 5 + fst cell * 2)
                                    (snd cell))
                      (indexed 0 (snd row)))
                 (indexed k rows)) = List.length (List.concat rows)).
  { induction rows as [|row rest IH]; intros k; simpl; [reflexivity|].
    rewrite !length_app, length_map, indexed_length. now rewrite IH. }
  apply H.
Qed.

End GridFacts.

(* ------------------------------------------------------------------------ *)
(** ** The range that ConvertToTable deletes *)

Module RangeFacts.
Import Js Regex Docs Server Props Dispatch MoreProps.
Import JsFacts ParserFacts ToolFacts LocateFacts ConvertFacts GridFacts.

Lemma startsWith_length (pat text : jsstring) :
  startsWith pat text = true -> len pat <= len text.
Proof.
  unfold len. revert text.
  induction pat as [|p pat' IH]; intros text; simpl; [lia|].
  destruct text as [|c text']; [discriminate|].
  intros H. apply andb_true_iff in H as [_ H]. apply IH in H.
  simpl List.length. lia.
Qed.

(** A match found by the scan lies inside the text scanned. *)
Lemma scan_bounds (pat rest : jsstring) (k : Z) :
  scan pat rest k <> -1 ->
  k <= scan pat rest k /\ scan pat rest k + len pat <= k + len rest.
Proof.
  revert k. induction rest as [|c rest' IH]; intros k; simpl.
  - destruct (startsWith pat []) eqn:E; [|contradiction].
    intros _. apply startsWith_length in E. lia.
  - destruct (startsWith pat (c :: rest')) eqn:E.
    + intros _. apply startsWith_length in E. lia.
    + intros H. destruct (IH (k + 1) H) as [H1 H2].
      unfold len in *. simpl List.length. lia.
Qed.

Lemma indexOf_bounds (text pat : jsstring) :
  indexOf text pat 0 <> -1 ->
  0 <= indexOf text pat 0 /\ indexOf text pat 0 + len pat <= len text.
Proof.
  rewrite indexOf_0. intros H. destruct (scan_bounds _ _ _ H). lia.
Qed.

(** The requests of every batch of ConvertToTable: those of the table,
    built from the first run that holds the first line, or those of the
    cells. *)
Lemma ConvertToTable_batches (cl : Clients) (svc : Service)
  (documentId tableText : jsstring) (doc : Document)
  (id : Nullable jsstring) (requests : list Request) :
  docsClient cl = true ->
  svc [] (DocumentsGet documentId) = Resolved doc ->
  offsetsNonNegative doc ->
  parseRows tableText <> [] ->
  In (DocumentsBatchUpdate id requests)
     (fst (run svc [] (ConvertToTable cl documentId tableText))) ->
  exists pre s text post,
    textRuns doc = pre ++ (s, text) :: post /\
    (forall r, In r pre ->
               indexOf (snd r) (hd [] (tableLines tableText)) 0 = -1) /\
    indexOf text (hd [] (tableLines tableText)) 0 <> -1 /\
    0 <= s /\
    (requests = cellRequests (parseRows tableText)
                  (s + indexOf text (hd [] (tableLines tableText)) 0) \/
     requests =
       tableRequests (parseRows tableText)
         (s + indexOf text (hd [] (tableLines tableText)) 0)
         (if indexOf text (last (tableLines tableText) []) 0 =? -1 then -1
          else s + indexOf text (last (tableLines tableText) []) 0
               + len (last (tableLines tableText) []))).
Proof.
  intros Hcl Hget Hnn Hrows Hin.
  destruct (@locate_cases (tableLines tableText) (textRuns doc) Hnn)
    as [Habsent|(pre & s & text & post & Hruns & Hpre & Hi & Hs)].
  - assert (Hloc : fst (locateTable doc (tableLines tableText)) = -1)
      by (rewrite locateTable_runs, locate_absent by exact Habsent;
          reflexivity).
    rewrite ConvertToTable_not_found with (doc := doc) in Hin;
      try assumption.
    destruct Hin as [H|[]]. discriminate.
  - pose proof (locate_first (tableLines tableText) pre post s text Hpre Hi Hs)
      as Hloc.
    rewrite <- Hruns, <- locateTable_runs in Hloc.
    destruct (@ConvertToTable_found cl svc documentId tableText doc _ _
                Hcl Hrows Hget Hloc Hs) as [Hcalls _].
    exists pre, s, text, post. repeat split; try assumption.
    + apply (Hnn (s, text)). rewrite Hruns. apply in_elt.
    + destruct Hcalls as [E|E]; rewrite E in Hin; simpl in Hin;
        repeat match goal with
               | H : _ \/ _ |- _ => destruct H
               | H : False |- _ => destruct H
               end; try discriminate;
        match goal with H : _ = DocumentsBatchUpdate _ _ |- _ =>
          injection H as <- <- end; auto.
Qed.

(** The first batch, when the first line is found. *)
Lemma ConvertToTable_first_batch (cl : Clients) (svc : Service)
  (documentId tableText : jsstring) (doc : Document)
  (pre post : list (Z * jsstring)) (s : Z) (text : jsstring) :
  docsClient cl = true ->
  svc [] (DocumentsGet documentId) = Resolved doc ->
  parseRows tableText <> [] ->
  textRuns doc = pre ++ (s, text) :: post ->
  (forall r, In r pre ->
             indexOf (snd r) (hd [] (tableLines tableText)) 0 = -1) ->
  indexOf text (hd [] (tableLines tableText)) 0 <> -1 ->
  0 <= s ->
  exists rest,
    fst (run svc [] (ConvertToTable cl documentId tableText)) =
    DocumentsGet documentId
    :: DocumentsBatchUpdate (Val documentId)
         (tableRequests (parseRows tableText)
            (s + indexOf text (hd [] (tableLines tableText)) 0)
            (if indexOf text (last (tableLines tableText) []) 0 =? -1 then -1
             else s + indexOf text (last (tableLines tableText) []) 0
                  + len (last (tableLines tableText) [])))
    :: rest.
Proof.
  intros Hcl Hget Hrows Hruns Hpre Hi Hs0.
  assert (Hs : s + indexOf text (hd [] (tableLines tableText)) 0 <> -1).
  { destruct (indexOf_0_range text (hd [] (tableLines tableText))); lia. }
  pose proof (locate_first (tableLines tableText) pre post s text Hpre Hi Hs)
    as Hloc.
  rewrite <- Hruns, <- locateTable_runs in Hloc.
  destruct (@ConvertToTable_found cl svc documentId tableText doc _ _
              Hcl Hrows Hget Hloc Hs) as [[E|E] _]; rewrite E;
    eexists; reflexivity.
Qed.

(** A table text of one line: the line, its row, and its length. *)
Lemma single_line_table (tableText line : jsstring) :
  tableLines tableText = [line] ->
  parseRows tableText <> [] ->
  parseRows tableText = [parseCells line] /\ 0 < len line.
Proof.
  intros Hlines Hrows. rewrite parseRows_rowLines, Hlines in *. simpl in *.
  destruct (rowLine line) eqn:R; [|contradiction]. split; [reflexivity|].
  apply rowLine_cells in R. destruct line; [|unfold len; simpl; lia].
  now contradiction R.
Qed.

End RangeFacts.

(* ------------------------------------------------------------------------ *)
(** ** More on the fences, the search and the requests of FormatDoc *)

Module FormatFacts.
Import Js Regex Docs Server Props Dispatch MoreProps.
Import JsFacts SearchFacts ToolFacts FenceFacts GridFacts.

Lemma emitted_blocked (lines : list jsstring) (inTable : bool) :
  blocked (emitted lines inTable) inTable = true.
Proof.
  revert inTable. induction lines as [|line rest IH]; intros inTable.
  - destruct inTable; reflexivity.
  - simpl emitted.
    destruct (includes line (str "|")) eqn:E; destruct inTable;
      cbn [app blocked negb]; rewrite ?E, IH; reflexivity.
Qed.

Lemma blocked_app (x y : list OutLine) (open : bool) :
  blocked (x ++ y) open = true ->
  blocked y (xorb open (Nat.odd (countFence x))) = true.
Proof.
  revert open. induction x as [|[l|] rest IH]; intros open; simpl.
  - now rewrite xorb_false_r.
  - intros H. apply andb_true_iff in H as [_ H]. now apply IH.
  - intros H. apply IH in H. rewrite Nat.odd_succ, <- Nat.negb_odd.
    destruct open, (Nat.odd (countFence rest)); exact H.
Qed.

(** A pushed line is after an odd number of fences exactly when it has
    a "|". *)
Lemma blocked_at (pre post : list OutLine) (line : jsstring) :
  blocked (pre ++ Pushed line :: post) false = true ->
  Nat.odd (countFence pre) = includes line (str "|").
Proof.
  intros H. apply blocked_app in H. simpl in H.
  apply andb_true_iff in H as [H _]. apply eqb_prop in H. now symmetry.
Qed.

Lemma split_plain (sep : char) (p : jsstring) :
  ~ In sep p -> split sep p = [p].
Proof.
  induction p as [|c t IH]; intros H; [reflexivity|].
  rewrite split_cons.
  destruct (char_eqb c sep) eqn:E.
  - apply char_eqb_eq in E. subst c. exfalso. apply H. now left.
  - rewrite IH by (intros Hin; apply H; now right). reflexivity.
Qed.

Lemma split_app_sep (sep : char) (p x : jsstring) :
  ~ In sep p -> split sep (p ++ sep :: x) = p :: split sep x.
Proof.
  induction p as [|c t IH]; intros H.
  - simpl. unfold char_eqb. now rewrite N.eqb_refl.
  - change ((c :: t) ++ sep :: x) with (c :: (t ++ sep :: x)).
    rewrite split_cons.
    destruct (char_eqb c sep) eqn:E.
    + apply char_eqb_eq in E. subst c. exfalso. apply H. now left.
    + rewrite IH by (intros Hin; apply H; now right). reflexivity.
Qed.

(** Joining pieces that do not hold the separator and splitting again
    gives the pieces back. *)
Lemma split_join (sep : char) (pieces : list jsstring) :
  pieces <> [] ->
  (forall p, In p pieces -> ~ In sep p) ->
  split sep (join [sep] pieces) = pieces.
Proof.
  induction pieces as [|p rest IH]; intros Hne H; [contradiction|].
  destruct rest as [|q rest'].
  - simpl. apply split_plain. apply H. now left.
  - rewrite join_cons by discriminate.
    change (p ++ [sep] ++ join [sep] (q :: rest'))
      with (p ++ sep :: join [sep] (q :: rest')).
    rewrite split_app_sep by (apply H; now left).
    rewrite IH; [reflexivity|discriminate|].
    intros. apply H. now right.
Qed.

Lemma emitted_no_newline (lines : list jsstring) (inTable : bool) :
  (forall line, In line lines -> ~ In ch_nl line) ->
  forall p, In p (List.map render (emitted lines inTable)) -> ~ In ch_nl p.
Proof.
  assert (Hfence : ~ In ch_nl fence)
    by (vm_compute; intros [H|[H|[H|[]]]]; discriminate).
  revert inTable. induction lines as [|line rest IH]; intros inTable H p.
  - destruct inTable; simpl; [intros [<-|[]]; assumption|intros []].
  - simpl emitted.
    destruct (includes line (str "|")); destruct inTable; simpl;
      intros Hin;
      repeat match goal with
             | H : _ \/ _ |- _ => destruct H
             end; subst; try assumption;
      try (apply H; now left);
      try (eapply IH; [|eassumption]; intros; apply H; now right).
Qed.

Lemma emitted_length (lines : list jsstring) (inTable : bool) :
  List.length (emitted lines inTable) =
  (List.length lines + countFence (emitted lines inTable))%nat.
Proof.
  revert inTable. induction lines as [|line rest IH]; intros inTable.
  - destruct inTable; reflexivity.
  - simpl emitted.
    destruct (includes line (str "|")); destruct inTable;
      cbn [app List.length countFence]; rewrite IH; lia.
Qed.

(** The positions recorded for a run: where the target begins. *)
Lemma matchPositions_In (target rest : jsstring) (k0 k : Z) :
  target <> [] ->
  In k (matchPositions target rest k0) <->
  k0 <= k /\ startsWith target (skipn (Z.to_nat (k - k0)) rest) = true.
Proof.
  intros Hne. revert k0.
  induction rest as [|c rest' IH]; intros k0.
  - simpl. rewrite skipn_nil.
    destruct target; [contradiction|]. simpl. split; [tauto|].
    intros [_ H]. discriminate.
  - simpl matchPositions. rewrite in_app_iff, IH. split.
    + intros [H|[H1 H2]].
      * destruct (startsWith target (c :: rest')) eqn:E; [|destruct H].
        destruct H as [<-|[]]. split; [lia|].
        now rewrite Z.sub_diag.
      * split; [lia|].
        replace (Z.to_nat (k - k0)) with (S (Z.to_nat (k - (k0 + 1))))
          by lia.
        exact H2.
    + intros [H1 H2]. destruct (Z.eq_dec k k0) as [->|Hk].
      * left. rewrite Z.sub_diag in H2. simpl in H2. rewrite H2. now left.
      * right. split; [lia|].
        replace (Z.to_nat (k - k0)) with (S (Z.to_nat (k - (k0 + 1))))
          in H2 by lia.
        exact H2.
Qed.

(** With fuel, the requests of a list of instructions with texts that
    are not empty. *)
Lemma formatRequests_all (fuel : nat) (doc : Document)
  (formatting : list FormatInstruction) :
  (forall format, In format formatting -> text format <> []) ->
  (enoughFuel doc <= fuel)%nat ->
  formatRequests fuel doc formatting = Some (requestsFor doc formatting).
Proof.
  intros Htext Hfuel. unfold formatRequests, requestsFor.
  rewrite (forEachM_app (applyFormat fuel doc)
             (fun format => flat_map (applyOccurrence format [])
                                     (occurrencesOf doc (text format)))).
  - reflexivity.
  - intros format requests Hin. unfold applyFormat.
    rewrite findOccurrences_all by auto.
    now rewrite applyOccurrence_fold.
Qed.

(** The positions are at or after the start, and in increasing order. *)
Lemma matchPositions_lower (target rest : jsstring) (k0 k : Z) :
  In k (matchPositions target rest k0) -> k0 <= k.
Proof.
  revert k0. induction rest as [|c rest' IH]; intros k0; simpl; [tauto|].
  rewrite in_app_iff. intros [H|H].
  - destruct (startsWith target (c :: rest')); [|destruct H].
    destruct H as [<-|[]]. lia.
  - apply IH in H. lia.
Qed.

Lemma matchPositions_increasing (target rest : jsstring) (k0 : Z) :
  forall pre k post,
    matchPositions target rest k0 = pre ++ k :: post ->
    forall j, In j post -> k < j.
Proof.
  revert k0. induction rest as [|c rest' IH]; intros k0 pre k post E j Hj.
  - destruct pre; discriminate.
  - simpl in E. destruct (startsWith target (c :: rest')).
    + destruct pre as [|p pre']; simpl in E.
      * injection E as <- <-. apply matchPositions_lower in Hj. lia.
      * injection E as _ E. now apply (IH (k0 + 1) pre' k post).
    + now apply (IH (k0 + 1) pre k post).
Qed.

(** The mask of a request: the names of the fields the instruction
    sets. *)
Lemma styleOf_fields (format : FormatInstruction) :
  snd (styleOf format) = setFieldNames format.
Proof.
  unfold styleOf, setFieldNames.
  destruct (bold format), (italic format), (underline format); reflexivity.
Qed.

Lemma render_literal (out : list OutLine) :
  List.map (fun l => match l with
                     | Pushed line => line
                     | Fence => str "```"
                     end) out = List.map render out.
Proof. apply map_ext. intros [line|]; reflexivity. Qed.

End FormatFacts.

(* ------------------------------------------------------------------------ *)
(** ** The listing of ListDocs *)

Module ResourceFacts.
Import Js Docs Server Resource JsFacts.

Lemma startsWith_app (pat post : jsstring) :
  startsWith pat (pat ++ post) = true.
Proof.
  induction pat as [|p pat' IH]; [reflexivity|].
  simpl. unfold char_eqb. now rewrite N.eqb_refl.
Qed.

Lemma scan_found (pat pre post : jsstring) (k : Z) :
  0 <= k -> scan pat (pre ++ pat ++ post) k <> -1.
Proof.
  revert k. induction pre as [|c pre' IH]; intros k Hk.
  - simpl app. destruct (pat ++ post) eqn:E; simpl;
      rewrite <- E, startsWith_app; lia.
  - simpl. destruct (startsWith pat (c :: pre' ++ pat ++ post)); [lia|].
    apply IH. lia.
Qed.

(** A string includes each of its parts. *)
Lemma includes_app (pre part post : jsstring) :
  includes (pre ++ part ++ post) part = true.
Proof.
  unfold includes. rewrite indexOf_0.
  apply negb_true_iff, Z.eqb_neq, scan_found. lia.
Qed.

Lemma includes_inside (whole pre part post : jsstring) :
  whole = pre ++ part ++ post -> includes whole part = true.
Proof. intros ->. apply includes_app. Qed.

Section Listing.

Variable toLocaleDateString : Nullable jsstring -> jsstring.

Lemma addFile_app (content : jsstring) (file : DriveFile) :
  addFile toLocaleDateString content file =
  content ++ addFile toLocaleDateString [] file.
Proof.
  unfold addFile. cbv zeta. rewrite app_nil_l.
  now rewrite <- !app_assoc.
Qed.

Lemma addFile_fold (files : list DriveFile) (content : jsstring) :
  fold_left (addFile toLocaleDateString) files content =
  content ++ List.concat (List.map (addFile toLocaleDateString []) files).
Proof.
  revert content. induction files as [|file rest IH]; intros content; simpl.
  - now rewrite app_nil_r.
  - rewrite IH, addFile_app. now rewrite <- app_assoc.
Qed.

(** The entry of each file holds its name and its id. *)
Lemma entries_include (files : list DriveFile) (file : DriveFile)
  (content : jsstring) :
  In file files ->
  let text :=
    content ++ List.concat (List.map (addFile toLocaleDateString []) files) in
  includes text (showId (name file)) = true /\
  includes text (showId (id file)) = true.
Proof.
  intros Hin text. subst text.
  apply in_split in Hin as (before & after & ->).
  rewrite map_app, concat_app. cbn [List.map List.concat].
  set (A := List.concat (List.map (addFile toLocaleDateString []) before)).
  set (B := List.concat (List.map (addFile toLocaleDateString []) after)).
  split.
  - apply includes_inside
      with (pre := content ++ A ++ pageIcon ++ str " ")
           (post := [ch_nl] ++ (str "   ID: " ++ showId (id file) ++ [ch_nl])
                    ++ (str "   Modified: "
                        ++ toLocaleDateString (modifiedTime file)
                        ++ [ch_nl; ch_nl]) ++ B).
    unfold addFile. cbv zeta. rewrite app_nil_l.
    repeat rewrite <- app_assoc. reflexivity.
  - apply includes_inside
      with (pre := content ++ A ++ (pageIcon ++ str " " ++ showId (name file)
                                    ++ [ch_nl]) ++ str "   ID: ")
           (post := [ch_nl] ++ (str "   Modified: "
                                ++ toLocaleDateString (modifiedTime file)
                                ++ [ch_nl; ch_nl]) ++ B).
    unfold addFile. cbv zeta. rewrite app_nil_l.
    repeat rewrite <- app_assoc. reflexivity.
Qed.

End Listing.

End ResourceFacts.

(* ------------------------------------------------------------------------ *)
(** ** Start-up *)

Module StartupFacts.
Import Js Docs Server Startup.

Lemma sameString_refl (s : jsstring) : sameString s s = true.
Proof.
  induction s as [|c t IH]; [reflexivity|].
  simpl. unfold char_eqb. now rewrite N.eqb_refl.
Qed.

Lemma written_same (disk : Disk) (path data : jsstring) :
  written disk path data path = Some data.
Proof. unfold written. now rewrite sameString_refl. Qed.

Lemma play_andThen (Token A B : Type) (world : World Token)
  (p : Script Token A) (k : A -> Script Token B) :
  forall history,
    play world history (andThen p k) =
    play world (fst (play world history p)) (k (snd (play world history p))).
Proof.
  induction p as [a|c f IH]; intros history; simpl; [reflexivity|].
  apply IH.
Qed.

End StartupFacts.

(* ------------------------------------------------------------------------ *)
(** ** Properties of the tools *)

Import Js Regex Docs Server Props.
Import JsFacts RegexFacts ParserFacts SearchFacts ToolFacts LocateFacts.
Import FenceFacts ConvertFacts.
Import Dispatch MoreProps GridFacts FormatFacts.

(** C1 (counterexample). The line "---" is made of "-" only, yet it is
    not discarded: the table text "| A |", "---", "| 1 |" gives three
    rows, the second of them from that line. *)
Lemma separator_line_kept_as_row :
  let tableText :=
    str "| A |" ++ [ch_nl] ++ str "---" ++ [ch_nl] ++ str "| 1 |" in
  tableLines tableText = [str "| A |"; str "---"; str "| 1 |"] /\
  separatorOnly (str "---") = true /\
  isSeparatorLine (str "---") = false /\
  parseRows tableText = [[str "A"]; [str "---"]; [str "1"]].
Proof. repeat split; vm_compute; reflexivity. Qed.

(** C1 (amended). In the parser of ConvertToTable a line is discarded as
    a separator only if it starts with one or more code units among "|",
    "-", ":" and white space that are followed by a "|".  A line made of
    those code units only is discarded exactly when it has a "|" after its
    first code unit.  The grid holds, in order, the cells of the lines that
    are not discarded and have a cell that is not blank: as many rows as
    there are such lines. *)
Theorem parseRows_separator_lines (tableText : jsstring) :
  parseRows tableText =
    List.map parseCells (List.filter rowLine (tableLines tableText)) /\
  List.length (parseRows tableText) =
    List.length (List.filter rowLine (tableLines tableText)) /\
  (forall line,
     separatorOnly line = true ->
     isSeparatorLine line = existsb isPipe (tl line)) /\
  (forall line,
     isSeparatorLine line = true ->
     exists pre post,
       line = pre ++ ch_pipe :: post /\ pre <> [] /\
       forallb separatorClass pre = true).
Proof.
  repeat split.
  - apply parseRows_rowLines.
  - rewrite parseRows_rowLines. apply length_map.
  - apply separatorOnly_matched.
  - intros line H. now apply isSeparatorLine_iff.
Qed.

(** The line "|---|---|" is discarded. *)
Lemma parseRows_separator_lines_witness :
  isSeparatorLine (str "|---|---|") = existsb isPipe (tl (str "|---|---|")).
Proof.
  exact (proj1 (proj2 (proj2 (parseRows_separator_lines (str "|---|---|"))))
           (str "|---|---|") eq_refl).
Defined.

(** C2. The search resumes one position after the start of the previous
    match, so every position at which the target begins is found,
    overlapping ones included: for a target that is not empty the search
    of a text run records, in increasing order and once each, exactly the
    positions [k] of the run at which the target begins, as the ranges
    from [k] to [k] plus the length of the target, counted from the start
    of the run.  In a text run "ababab" the target "aba" has exactly two
    occurrences, at offsets 0 and 2 from the start of the run. *)
Theorem occurrence_search_overlapping (fuel : nat) (startIndex : option Z)
  (occurrences : list Occurrence) :
  let base := orElse startIndex 0 in
  let span text :=
    {| startIndex := startIndex;
       textRun := Some {| content := Some text |} |} in
  let range target k :=
    {| start := base + k; end_ := base + k + len target |} in
  (forall text target,
     target <> [] -> (List.length text < fuel)%nat ->
     exists positions,
       searchElem fuel target occurrences (span text) =
         Some (occurrences ++ List.map (range target) positions) /\
       (forall k,
          In k positions <->
          0 <= k /\ startsWith target (skipn (Z.to_nat k) text) = true) /\
       (forall pre k post,
          positions = pre ++ k :: post -> forall j, In j post -> k < j)) /\
  ((3 <= fuel)%nat ->
   searchElem fuel (str "aba") occurrences (span (str "ababab")) =
   Some (occurrences ++
         [{| start := base + 0; end_ := base + 0 + 3 |};
          {| start := base + 2; end_ := base + 2 + 3 |}])).
Proof.
  intros base span range. split.
  - intros text target Hne Hfuel.
    exists (matchPositions target text 0). split; [|split].
    + unfold searchElem, span. cbn [textRun content Docs.startIndex].
      destruct text as [|c text']; [simpl; now rewrite app_nil_r|].
      cbn [truthy]. rewrite indexOf_0.
      exact (@whileFound_all target base Hne (c :: text') [] fuel occurrences
               Hfuel).
    + intros k. rewrite matchPositions_In by assumption.
      now rewrite Z.sub_0_r.
    + apply matchPositions_increasing.
  - intros Hfuel.
    destruct fuel as [|[|[|fuel']]]; try lia.
    unfold searchElem, span. cbn [textRun content Docs.startIndex truthy str].
    change (indexOf (str "ababab") (str "aba") 0) with 0.
    cbn [whileFound]. change (0 =? -1) with false. cbv iota.
    change (indexOf (str "ababab") (str "aba") (0 + 1)) with 2.
    change (2 =? -1) with false. cbv iota.
    change (indexOf (str "ababab") (str "aba") (2 + 1)) with (-1).
    change (-1 =? -1) with true. cbv iota.
    change (len (str "aba")) with 3.
    now rewrite <- app_assoc.
Qed.

(** The run "aaa" searched for "aa", and the run "ababab" at offset 10
    searched for "aba" with just enough fuel. *)
Lemma occurrence_search_overlapping_witness :
  (exists positions,
     searchElem 4 (str "aa") []
       {| startIndex := Some 10;
          textRun := Some {| content := Some (str "aaa") |} |} =
       Some (List.map
               (fun k => {| start := 10 + k; end_ := 10 + k + 2 |})
               positions) /\
     (In 0 positions /\ In 1 positions /\ (In 2 positions -> False)) /\
     (forall pre k post,
        positions = pre ++ k :: post -> forall j, In j post -> k < j)) /\
  searchElem 3 (str "aba") []
    {| startIndex := Some 10;
       textRun := Some {| content := Some (str "ababab") |} |} =
  Some [{| start := 10; end_ := 13 |}; {| start := 12; end_ := 15 |}].
Proof.
  split.
  - destruct (proj1 (@occurrence_search_overlapping 4 (Some 10) [])
                (str "aaa") (str "aa"))
      as (positions & E & Hin & Hinc).
    + discriminate.
    + simpl. lia.
    + exists positions. split; [exact E|]. split; [|exact Hinc].
      split; [|split].
      * apply Hin. split; [lia | reflexivity].
      * apply Hin. split; [lia | reflexivity].
      * intros H. apply Hin in H as [_ H]. discriminate H.
  - exact (proj2 (@occurrence_search_overlapping 3 (Some 10) []) (le_n 3)).
Defined.

(** C3 (counterexample). The document holds the three lines of the table,
    each in a text run of its own, as paragraphs are: the tool succeeds,
    and its first batch is the InsertTable alone, with no DeleteRange. *)
Lemma ConvertToTable_split_runs_no_delete :
  let doc := docOfRuns [(1, str "| A | B |" ++ [ch_nl]);
                        (11, str "|---|---|" ++ [ch_nl]);
                        (21, str "| 1 | 2 |" ++ [ch_nl])] in
  let id := str "doc-1" in
  fst (run (serving doc) []
         (ConvertToTable {| docsClient := true; driveClient := true |}
            id exampleTable)) =
  [DocumentsGet id;
   DocumentsBatchUpdate (Val id) [InsertTable 2 2 1];
   DocumentsBatchUpdate (Val id)
     [InsertText 5 (str "A"); InsertText 7 (str "B");
      InsertText 10 (str "1"); InsertText 12 (str "2")]].
Proof. vm_compute. reflexivity. Qed.

(** C3 (amended). ConvertToTable on the example table parses the grid
    [["A","B"],["1","2"]].  When the first line is found, at [tableStart],
    the first batch holds one InsertTable of 2 rows and 2 columns at
    [tableStart], preceded by one DeleteRange from [tableStart] to
    [tableEnd] exactly when the text run in which the first line was found
    also holds the last line and [tableEnd], the end of that line, lies
    beyond [tableStart].  When the first batch is accepted the second
    batch holds exactly 4 InsertText requests, one per cell, at
    [tableStart + 4 + r * 5 + c * 2]. *)
Theorem ConvertToTable_example (cl : Clients) (svc : Service)
  (documentId : jsstring) (doc : Document) (pre post : list (Z * jsstring))
  (s : Z) (text : jsstring) :
  let first := indexOf text (str "| A | B |") 0 in
  let last := indexOf text (str "| 1 | 2 |") 0 in
  let tableStart := s + first in
  let tableEnd := s + last + 9 in
  let batch1 :=
    DocumentsBatchUpdate (Val documentId)
      ((if negb (last =? -1) && (tableEnd >? tableStart)
        then [DeleteContentRange tableStart tableEnd] else [])
       ++ [InsertTable 2 2 tableStart]) in
  let batch2 :=
    DocumentsBatchUpdate (Val documentId)
      [InsertText (tableStart + 4 + 0 * 5 + 0 * 2) (str "A");
       InsertText (tableStart + 4 + 0 * 5 + 1 * 2) (str "B");
       InsertText (tableStart + 4 + 1 * 5 + 0 * 2) (str "1");
       InsertText (tableStart + 4 + 1 * 5 + 1 * 2) (str "2")] in
  docsClient cl = true ->
  svc [] (DocumentsGet documentId) = Resolved doc ->
  textRuns doc = pre ++ (s, text) :: post ->
  (forall r, In r pre -> indexOf (snd r) (str "| A | B |") 0 = -1) ->
  first <> -1 ->
  0 <= s ->
  parseRows exampleTable = [[str "A"; str "B"]; [str "1"; str "2"]] /\
  (exists rest,
     fst (run svc [] (ConvertToTable cl documentId exampleTable)) =
     DocumentsGet documentId :: batch1 :: rest) /\
  (svc [DocumentsGet documentId] batch1 = Resolved tt ->
   fst (run svc [] (ConvertToTable cl documentId exampleTable)) =
   [DocumentsGet documentId; batch1; batch2]).
Proof.
  intros first last tableStart tableEnd batch1 batch2
         Hcl Hget Hruns Hpre Hfirst Hs.
  assert (Hrows : parseRows exampleTable
                  = [[str "A"; str "B"]; [str "1"; str "2"]])
    by (vm_compute; reflexivity).
  assert (Hlines : tableLines exampleTable
                   = [str "| A | B |"; str "|---|---|"; str "| 1 | 2 |"])
    by (vm_compute; reflexivity).
  assert (Hstart : tableStart <> -1).
  { subst tableStart. destruct (indexOf_0_range text (str "| A | B |"));
      fold first in H; lia. }
  assert (Hloc : locateTable doc (tableLines exampleTable) =
                 (tableStart, if last =? -1 then -1 else tableEnd)).
  { rewrite locateTable_runs, Hruns, Hlines.
    rewrite locate_first; try assumption. reflexivity. }
  assert (Hne : parseRows exampleTable <> []) by (rewrite Hrows; discriminate).
  destruct (@ConvertToTable_found cl svc documentId exampleTable doc _ _
              Hcl Hne Hget Hloc Hstart)
    as [Hcalls Hboth].
  assert (Hb1 : tableRequests (parseRows exampleTable) tableStart
                  (if last =? -1 then -1 else tableEnd) =
                (if negb (last =? -1) && (tableEnd >? tableStart)
                 then [DeleteContentRange tableStart tableEnd] else [])
                ++ [InsertTable 2 2 tableStart]).
  { rewrite Hrows. unfold tableRequests.
    change (lengthZ [[str "A"; str "B"]; [str "1"; str "2"]]) with 2.
    change (lengthZ (hd [] [[str "A"; str "B"]; [str "1"; str "2"]])) with 2.
    destruct (last =? -1) eqn:L; simpl negb; simpl andb; [|reflexivity].
    replace (-1 >? tableStart) with false; [reflexivity|].
    symmetry. rewrite Z.gtb_ltb. apply Z.ltb_ge.
    subst tableStart. destruct (indexOf_0_range text (str "| A | B |"));
      fold first in H; lia. }
  assert (Hb2 : cellRequests (parseRows exampleTable) tableStart =
                [InsertText (tableStart + 4 + 0 * 5 + 0 * 2) (str "A");
                 InsertText (tableStart + 4 + 0 * 5 + 1 * 2) (str "B");
                 InsertText (tableStart + 4 + 1 * 5 + 0 * 2) (str "1");
                 InsertText (tableStart + 4 + 1 * 5 + 1 * 2) (str "2")]).
  { rewrite Hrows. reflexivity. }
  rewrite Hb1, Hb2 in *. fold batch1 batch2 in Hcalls, Hboth.
  split; [assumption|]. split.
  - destruct Hcalls as [-> | ->]; eexists; reflexivity.
  - intros Hok. apply Hboth; [assumption|discriminate].
Qed.

(** The example table in a single text run at offset 1. *)
Lemma ConvertToTable_example_witness :
  let id := str "doc-1" in
  fst (run (serving (docOfRuns [(1, exampleTable ++ [ch_nl])])) []
         (ConvertToTable {| docsClient := true; driveClient := true |}
            id exampleTable)) =
  [DocumentsGet id;
   DocumentsBatchUpdate (Val id) [DeleteContentRange 1 30; InsertTable 2 2 1];
   DocumentsBatchUpdate (Val id)
     [InsertText 5 (str "A"); InsertText 7 (str "B");
      InsertText 10 (str "1"); InsertText 12 (str "2")]].
Proof.
  refine (proj2 (proj2 (@ConvertToTable_example
                          {| docsClient := true; driveClient := true |}
                          (serving (docOfRuns [(1, exampleTable ++ [ch_nl])]))
                          (str "doc-1")
                          (docOfRuns [(1, exampleTable ++ [ch_nl])])
                          [] [] 1 (exampleTable ++ [ch_nl])
                          eq_refl eq_refl eq_refl _ _ _))
                eq_refl).
  - intros r [].
  - vm_compute. discriminate.
  - vm_compute. discriminate.
Defined.

(** C4 (counterexample). FormatDoc with a target text that is not in the
    document: no batch is sent, but the result is the success message,
    not an error. *)
Lemma FormatDoc_not_found_succeeds :
  let doc := docOfRuns [(1, str "Hello world")] in
  let format := {| text := str "Intro"; bold := Some true; italic := None;
                   underline := None; heading := None |} in
  indexOf (str "Hello world") (str "Intro") 0 = -1 /\
  run (serving doc) []
    (FormatDoc 12 {| docsClient := true; driveClient := true |}
       (str "doc-1") [format]) =
  ([DocumentsGet (str "doc-1")],
   Some {| content_text :=
             checkMark ++ str " Applied formatting to document doc-1";
           isError := false |}).
Proof. split; vm_compute; reflexivity. Qed.

(** C4 (amended). When the first line of the table is in no text run,
    ConvertToTable returns an error result and sends no batch.  When the
    text of an instruction is in no text run, FormatDoc builds no request
    for it; when that holds for every instruction, FormatDoc sends no
    batch and returns its success message. *)
Theorem not_found_results (fuel : nat) (cl : Clients) (svc : Service)
  (documentId tableText : jsstring) (formatting : list FormatInstruction)
  (doc : Document) :
  docsClient cl = true ->
  svc [] (DocumentsGet documentId) = Resolved doc ->
  (0 < fuel)%nat ->
  (notFound doc (hd [] (tableLines tableText)) ->
   exists r,
     snd (run svc [] (ConvertToTable cl documentId tableText)) = Some r /\
     isError r = true /\
     existsb isBatchUpdate
       (fst (run svc [] (ConvertToTable cl documentId tableText))) = false) /\
  (forall format requests,
     notFound doc (text format) ->
     applyFormat fuel doc requests format = Some requests) /\
  ((forall format, In format formatting -> notFound doc (text format)) ->
   run svc [] (FormatDoc fuel cl documentId formatting) =
   ([DocumentsGet documentId],
    Some (success (checkMark ++ str " Applied formatting to document "
                   ++ documentId)))).
Proof.
  intros Hcl Hget Hfuel. split; [|split].
  - intros Hnf.
    destruct (parseRows tableText) as [|row rows] eqn:Hrows.
    + unfold ConvertToTable. rewrite Hcl, Hrows. simpl.
      eexists. repeat split.
    + rewrite ConvertToTable_not_found with (doc := doc);
        try assumption; [|congruence|].
      * simpl. eexists. repeat split.
      * rewrite locateTable_runs, locate_absent by exact Hnf. reflexivity.
  - intros format requests Hnf. now apply applyFormat_notFound.
  - intros Hall. unfold FormatDoc. rewrite Hcl. simpl negb. cbv iota.
    rewrite run_await, Hget. unfold formatRequests.
    rewrite forEachM_same; [reflexivity|].
    intros format requests Hin. apply applyFormat_notFound; auto.
Qed.

(** A table that is not in the document. *)
Lemma not_found_results_witness :
  let doc := docOfRuns [(1, str "Hello world")] in
  exists r,
    snd (run (serving doc) []
           (ConvertToTable {| docsClient := true; driveClient := true |}
              (str "doc-1") (str "| A |"))) = Some r /\
    isError r = true /\
    existsb isBatchUpdate
      (fst (run (serving doc) []
              (ConvertToTable {| docsClient := true; driveClient := true |}
                 (str "doc-1") (str "| A |")))) = false.
Proof.
  refine (proj1 (@not_found_results 1
                   {| docsClient := true; driveClient := true |}
                   (serving (docOfRuns [(1, str "Hello world")]))
                   (str "doc-1") (str "| A |") []
                   (docOfRuns [(1, str "Hello world")])
                   eq_refl eq_refl (le_n 1)) _).
  intros r [<-|[]]. reflexivity.
Defined.

(** C5. UpdateDoc against a document whose last element ends at offset
    [E > 1]: in "replace" mode the batch is a DeleteRange from 1 to
    [E - 1] followed by an InsertText of the content at 1; in "append"
    mode, which is also the mode when none is given, the batch is one
    InsertText at [E - 1] of a newline and the content, and no delete. *)
Theorem UpdateDoc_requests (cl : Clients) (svc : Service)
  (documentId content : jsstring) (doc : Document) (b : Body)
  (els : list StructuralElement) (el : StructuralElement) (E : Z) :
  docsClient cl = true ->
  svc [] (DocumentsGet documentId) = Resolved doc ->
  body doc = Some b ->
  body_content b = Some (els ++ [el]) ->
  endIndex el = Some E ->
  E > 1 ->
  fst (run svc [] (UpdateDoc cl documentId content (Some replace))) =
    [DocumentsGet documentId;
     DocumentsBatchUpdate (Val documentId)
       [DeleteContentRange 1 (E - 1); InsertText 1 content]] /\
  fst (run svc [] (UpdateDoc cl documentId content (Some append))) =
    [DocumentsGet documentId;
     DocumentsBatchUpdate (Val documentId)
       [InsertText (E - 1) (ch_nl :: content)]] /\
  fst (run svc [] (UpdateDoc cl documentId content None)) =
    [DocumentsGet documentId;
     DocumentsBatchUpdate (Val documentId)
       [InsertText (E - 1) (ch_nl :: content)]].
Proof.
  intros Hcl Hget Hb Hc He HE.
  assert (Hend : orElse (lastEndIndex doc) 1 = E).
  { unfold lastEndIndex. rewrite Hb, Hc, rev_app_distr. simpl. rewrite He.
    simpl. destruct (E =? 0) eqn:N; [apply Z.eqb_eq in N; lia|reflexivity]. }
  unfold UpdateDoc. rewrite Hcl. simpl negb. cbv iota.
  repeat rewrite run_await. rewrite Hget.
  repeat rewrite run_await. unfold updateRequests. rewrite Hend.
  replace (E >? 1) with true by (symmetry; apply Z.gtb_lt; lia).
  simpl app.
  repeat split;
    (case_outcome; reflexivity).
Qed.

(** Replacing the content of a document that ends at offset 6. *)
Lemma UpdateDoc_requests_witness :
  let doc := docOfRuns [(1, str "Hello")] in
  fst (run (serving doc) []
         (UpdateDoc {| docsClient := true; driveClient := true |}
            (str "doc-1") (str "New") (Some replace))) =
  [DocumentsGet (str "doc-1");
   DocumentsBatchUpdate (Val (str "doc-1"))
     [DeleteContentRange 1 (6 - 1); InsertText 1 (str "New")]].
Proof.
  refine (proj1 (@UpdateDoc_requests
                   {| docsClient := true; driveClient := true |}
                   (serving (docOfRuns [(1, str "Hello")]))
                   (str "doc-1") (str "New") (docOfRuns [(1, str "Hello")])
                   _ [] _ 6 eq_refl eq_refl eq_refl eq_refl eq_refl _)).
  reflexivity.
Defined.

(** C6. FormatDoc with the one instruction [{text: "Intro", heading: 2}],
    against a document in which "Intro" occurs exactly once, sends one
    batch that holds exactly one UpdateParagraphStyle, with named style
    HEADING_2 over the range of the occurrence, and no UpdateTextStyle. *)
Theorem FormatDoc_heading_only (fuel : nat) (cl : Clients) (svc : Service)
  (documentId : jsstring) (doc : Document) (occurrence : Occurrence) :
  docsClient cl = true ->
  svc [] (DocumentsGet documentId) = Resolved doc ->
  (enoughFuel doc <= fuel)%nat ->
  occurrencesOf doc (str "Intro") = [occurrence] ->
  fst (run svc []
         (FormatDoc fuel cl documentId
            [{| text := str "Intro"; bold := None; italic := None;
                underline := None; heading := Some (2 # 1)%Q |}])) =
  [DocumentsGet documentId;
   DocumentsBatchUpdate (Val documentId)
     [UpdateParagraphStyle (start occurrence) (end_ occurrence)
        (str "HEADING_2") (str "namedStyleType")]].
Proof.
  intros Hcl Hget Hfuel Hocc.
  unfold FormatDoc. rewrite Hcl. simpl negb. cbv iota.
  rewrite run_await, Hget.
  unfold formatRequests. cbn [forEachM]. unfold applyFormat.
  cbn [text]. rewrite findOccurrences_all by (assumption || discriminate).
  rewrite Hocc. cbn [fold_left].
  change (applyOccurrence _ [] occurrence)
    with [UpdateParagraphStyle (start occurrence) (end_ occurrence)
            (str "HEADING_2") (str "namedStyleType")].
  change (lengthZ [_] >? 0) with true. cbv iota.
  rewrite run_await.
  case_outcome; reflexivity.
Qed.

(** A document of two paragraphs, the first of them "Intro". *)
Lemma FormatDoc_heading_only_witness :
  let doc := docOfRuns [(1, str "Intro" ++ [ch_nl]); (7, str "Body")] in
  fst (run (serving doc) []
         (FormatDoc 7 {| docsClient := true; driveClient := true |}
            (str "doc-1")
            [{| text := str "Intro"; bold := None; italic := None;
                underline := None; heading := Some (2 # 1)%Q |}])) =
  [DocumentsGet (str "doc-1");
   DocumentsBatchUpdate (Val (str "doc-1"))
     [UpdateParagraphStyle 1 6 (str "HEADING_2") (str "namedStyleType")]].
Proof.
  refine (@FormatDoc_heading_only 7
            {| docsClient := true; driveClient := true |}
            (serving (docOfRuns [(1, str "Intro" ++ [ch_nl]); (7, str "Body")]))
            (str "doc-1")
            (docOfRuns [(1, str "Intro" ++ [ch_nl]); (7, str "Body")])
            {| start := 1; end_ := 6 |} eq_refl eq_refl _ eq_refl).
  vm_compute. repeat constructor.
Defined.

(** C7. In every UpdateTextStyle request that FormatDoc sends, the range
    is an occurrence found for one of the instructions, the field mask is
    exactly the names of the style fields among bold, italic and underline
    that this instruction sets, joined by commas and nothing else, and the
    text style carries exactly those: a field left unset is not in the
    mask, so it is not cleared. *)
Theorem unset_styles_not_in_mask (fuel : nat) (cl : Clients) (svc : Service)
  (documentId : jsstring) (formatting : list FormatInstruction)
  (doc : Document) (id : Nullable jsstring) (requests : list Request)
  (s e : Z) (textStyle : TextStyle) (fields : jsstring) :
  svc [] (DocumentsGet documentId) = Resolved doc ->
  In (DocumentsBatchUpdate id requests)
     (fst (run svc [] (FormatDoc fuel cl documentId formatting))) ->
  In (UpdateTextStyle s e textStyle fields) requests ->
  exists format occurrences,
    In format formatting /\
    findOccurrences fuel doc (text format) = Some occurrences /\
    In {| start := s; end_ := e |} occurrences /\
    fields = join (str ",") (setFieldNames format) /\
    includes fields (str "bold") = isSet (bold format) /\
    includes fields (str "italic") = isSet (italic format) /\
    includes fields (str "underline") = isSet (underline format) /\
    ts_bold textStyle = bold format /\
    ts_italic textStyle = italic format /\
    ts_underline textStyle = underline format.
Proof.
  intros Hget Hcall Hreq.
  apply FormatDoc_calls in Hcall as (doc' & Hget' & Hreqs).
  rewrite Hget in Hget'. injection Hget' as <-.
  destruct (formatRequests_origin _ _ _ Hreqs _ Hreq)
    as (format & occs & occ & Hin & Hocc & Ho & Happ).
  apply applyOccurrence_textStyle in Happ as (-> & -> & -> & ->).
  exists format, occs. split; [assumption|]. split; [assumption|].
  split; [now destruct occ|].
  split; [now rewrite styleOf_fields|].
  destruct (styleOf_mask format) as (Hb & Hi & Hu).
  destruct (styleOf_textStyle format) as (Tb & Ti & Tu).
  auto 10.
Qed.

(** An instruction that sets bold and underline. *)
Lemma unset_styles_not_in_mask_witness :
  exists format occurrences,
    In format [{| text := str "Hello"; bold := Some true; italic := None;
                  underline := Some false; heading := None |}] /\
    findOccurrences 6 (docOfRuns [(1, str "Hello")]) (text format)
      = Some occurrences /\
    In {| start := 1; end_ := 6 |} occurrences /\
    str "bold,underline" = join (str ",") (setFieldNames format) /\
    includes (str "bold,underline") (str "bold") = isSet (bold format) /\
    includes (str "bold,underline") (str "italic") = isSet (italic format) /\
    includes (str "bold,underline") (str "underline")
      = isSet (underline format) /\
    ts_bold {| ts_bold := Some true; ts_italic := None;
               ts_underline := Some false |} = bold format /\
    ts_italic {| ts_bold := Some true; ts_italic := None;
                 ts_underline := Some false |} = italic format /\
    ts_underline {| ts_bold := Some true; ts_italic := None;
                    ts_underline := Some false |} = underline format.
Proof.
  refine (@unset_styles_not_in_mask 6
            {| docsClient := true; driveClient := true |}
            (serving (docOfRuns [(1, str "Hello")])) (str "doc-1")
            [{| text := str "Hello"; bold := Some true; italic := None;
                underline := Some false; heading := None |}]
            (docOfRuns [(1, str "Hello")])
            (Val (str "doc-1"))
            [UpdateTextStyle 1 6
               {| ts_bold := Some true; ts_italic := None;
                  ts_underline := Some false |} (str "bold,underline")]
            1 6 _ _ eq_refl _ _).
  - vm_compute. right. left. reflexivity.
  - left. reflexivity.
Defined.

(** C8. A tool whose client handle was never established returns an
    error result ([isError] set) and makes no call: CreateDoc, UpdateDoc,
    FormatDoc and ConvertToTable test [docsClient], DeleteDoc tests
    [driveClient]. *)
Theorem uninitialized_client (cl : Clients) (svc : Service) (fuel : nat)
  (documentId title content tableText : jsstring) (optContent : option jsstring)
  (mode : option Mode) (formatting : list FormatInstruction) :
  (docsClient cl = false ->
   (exists r, run svc [] (CreateDoc cl title optContent) = ([], Some r)
              /\ isError r = true) /\
   (exists r, run svc [] (UpdateDoc cl documentId content mode) = ([], Some r)
              /\ isError r = true) /\
   (exists r, run svc [] (FormatDoc fuel cl documentId formatting)
              = ([], Some r) /\ isError r = true) /\
   (exists r, run svc [] (ConvertToTable cl documentId tableText)
              = ([], Some r) /\ isError r = true)) /\
  (driveClient cl = false ->
   exists r, run svc [] (DeleteDoc cl documentId) = ([], Some r)
             /\ isError r = true).
Proof.
  split; intros H.
  - unfold CreateDoc, UpdateDoc, FormatDoc, ConvertToTable. rewrite H. simpl.
    repeat split; eexists; split; reflexivity.
  - unfold DeleteDoc. rewrite H. simpl. eexists; split; reflexivity.
Qed.

(** DeleteDoc without a Drive client. *)
Lemma uninitialized_client_witness :
  let cl := {| docsClient := false; driveClient := false |} in
  let svc := serving (docOfRuns []) in
  exists r, run svc [] (DeleteDoc cl (str "doc-1")) = ([], Some r)
            /\ isError r = true.
Proof.
  exact (proj2 (uninitialized_client
                  {| docsClient := false; driveClient := false |}
                  (serving (docOfRuns [])) 0 (str "doc-1") (str "t") (str "c")
                  (str "| a |") None None [])
               eq_refl).
Defined.

(** C9. CreateDoc inserts [formatMarkdownTable content].  That function
    returns a text without "|" as it is.  For every text, the lines of
    the text returned are the lines of the input, all of them and in
    order, with lines "```" pushed between them: these fences are even in
    number, and every input line that contains "|" lies between a fence
    that opens a block (an odd one) and the next fence, which closes it,
    with no other fence in between. *)
Theorem formatMarkdownTable_fences (cl : Clients) (svc : Service)
  (title content : jsstring) (documentId : Nullable jsstring) :
  let lineOf (l : OutLine) :=
    match l with
    | Pushed line => line
    | Fence => str "```"
    end in
  (docsClient cl = true ->
   content <> [] ->
   svc [] (DocumentsCreate title) = Resolved documentId ->
   fst (run svc [] (CreateDoc cl title (Some content))) =
   [DocumentsCreate title;
    DocumentsBatchUpdate documentId
      [InsertText 1 (formatMarkdownTable content)]]) /\
  (includes content (str "|") = false ->
   formatMarkdownTable content = content) /\
  formatMarkdownTable content =
    join [ch_nl] (List.map lineOf (formattedLines content)) /\
  split ch_nl (formatMarkdownTable content) =
    List.map lineOf (formattedLines content) /\
  pushedLines (formattedLines content) = split ch_nl content /\
  Nat.even (countFence (formattedLines content)) = true /\
  (forall pre line post,
     formattedLines content = pre ++ Pushed line :: post ->
     includes line (str "|") = true ->
     exists before block1 block2 rest,
       pre = before ++ Fence :: block1 /\
       post = block2 ++ Fence :: rest /\
       countFence block1 = O /\ countFence block2 = O /\
       Nat.even (countFence before) = true).
Proof.
  intros lineOf.
  assert (Hlines : List.map lineOf (formattedLines content)
                   = List.map render (formattedLines content))
    by apply render_literal.
  split; [|split; [|split; [|split; [|split; [|split]]]]].
  - intros Hcl Hne Hcreate. unfold CreateDoc. rewrite Hcl. simpl negb.
    cbv iota. rewrite run_await, Hcreate.
    destruct content as [|c rest]; [contradiction|]. cbn [truthy].
    rewrite run_await. case_outcome; reflexivity.
  - apply formatMarkdownTable_plain.
  - rewrite Hlines. reflexivity.
  - rewrite Hlines. unfold formatMarkdownTable. apply split_join.
    + intros H. apply map_eq_nil in H.
      pose proof (f_equal pushedLines H) as P.
      rewrite formattedLines_emitted, emitted_pushed in P.
      now apply split_not_nil in P.
    + rewrite formattedLines_emitted. apply emitted_no_newline.
      intros line. apply split_no_sep.
  - rewrite formattedLines_emitted. apply emitted_pushed.
  - rewrite formattedLines_emitted. apply emitted_count.
  - intros pre line post E Hpipe.
    apply fenced_between with (line := line); [|assumption].
    rewrite <- E, formattedLines_emitted. apply emitted_fenced.
Qed.

(** A table of one row between two lines of text. *)
Lemma formatMarkdownTable_fences_witness :
  split ch_nl
    (formatMarkdownTable (str "a" ++ [ch_nl] ++ str "|x|" ++ [ch_nl] ++ str "b"))
  = [str "a"; str "```"; str "|x|"; str "```"; str "b"].
Proof.
  exact (proj1 (proj2 (proj2 (proj2
           (@formatMarkdownTable_fences
              {| docsClient := true; driveClient := true |}
              (serving (docOfRuns [])) (str "t")
              (str "a" ++ [ch_nl] ++ str "|x|" ++ [ch_nl] ++ str "b")
              Undefined))))).
Defined.

(** C10. In ConvertToTable a batch holds a DeleteRange only if the text
    run in which the first table line was found also holds the last table
    line; when the first line is found in a run that does not hold the
    last line, the first batch is the InsertTable at the offset found,
    with no delete. *)
Theorem delete_needs_last_line_in_run (cl : Clients) (svc : Service)
  (documentId tableText : jsstring) (doc : Document) :
  let firstLine := hd [] (tableLines tableText) in
  let lastLine := last (tableLines tableText) [] in
  let rows := parseRows tableText in
  let calls := fst (run svc [] (ConvertToTable cl documentId tableText)) in
  docsClient cl = true ->
  svc [] (DocumentsGet documentId) = Resolved doc ->
  offsetsNonNegative doc ->
  rows <> [] ->
  (forall id requests,
     In (DocumentsBatchUpdate id requests) calls ->
     existsb isDelete requests = true ->
     exists pre s text post,
       textRuns doc = pre ++ (s, text) :: post /\
       (forall r, In r pre -> indexOf (snd r) firstLine 0 = -1) /\
       indexOf text firstLine 0 <> -1 /\
       indexOf text lastLine 0 <> -1 /\
       requests =
       [DeleteContentRange (s + indexOf text firstLine 0)
          (s + indexOf text lastLine 0 + len lastLine);
        InsertTable (lengthZ rows) (lengthZ (hd [] rows))
          (s + indexOf text firstLine 0)]) /\
  (forall pre s text post,
     textRuns doc = pre ++ (s, text) :: post ->
     (forall r, In r pre -> indexOf (snd r) firstLine 0 = -1) ->
     indexOf text firstLine 0 <> -1 ->
     indexOf text lastLine 0 = -1 ->
     exists rest,
       calls =
       DocumentsGet documentId
       :: DocumentsBatchUpdate (Val documentId)
            [InsertTable (lengthZ rows) (lengthZ (hd [] rows))
               (s + indexOf text firstLine 0)]
       :: rest).
Proof.
  intros firstLine lastLine rows calls Hcl Hget Hnn Hrows.
  destruct (@locate_cases (tableLines tableText) (textRuns doc) Hnn)
    as [Habsent|(pre & s & text & post & Hruns & Hpre & Hi & Hs)].
  - (* the first line is in no run: an error, and no batch *)
    assert (Hloc : fst (locateTable doc (tableLines tableText)) = -1)
      by (rewrite locateTable_runs, locate_absent by exact Habsent;
          reflexivity).
    subst calls. rewrite ConvertToTable_not_found with (doc := doc);
      try assumption.
    split.
    + intros id requests [H|[]]. discriminate.
    + intros pre s text post Hruns _ Hi _. exfalso. apply Hi.
      apply (Habsent (s, text)). rewrite Hruns. apply in_elt.
  - (* the first run that holds the first line decides *)
    pose proof (locate_first (tableLines tableText) pre post s text Hpre Hi Hs)
      as Hloc.
    rewrite <- Hruns, <- locateTable_runs in Hloc.
    fold firstLine lastLine in Hloc, Hi, Hs, Hpre.
    destruct (@ConvertToTable_found cl svc documentId tableText doc _ _
                Hcl Hrows Hget Hloc Hs) as [Hcalls _].
    fold rows calls in Hcalls.
    assert (Hstart : 0 <= s + indexOf text firstLine 0).
    { assert (0 <= s) by (apply (Hnn (s, text)); rewrite Hruns; apply in_elt).
      destruct (indexOf_0_range text firstLine); [contradiction|lia]. }
    assert (Hbefore : (-1 >? s + indexOf text firstLine 0) = false)
      by (rewrite Z.gtb_ltb; apply Z.ltb_ge; lia).
    split.
    + intros id requests Hin Hdel.
      assert (Hreq : requests =
                tableRequests rows (s + indexOf text firstLine 0)
                  (if indexOf text lastLine 0 =? -1 then -1
                   else s + indexOf text lastLine 0 + len lastLine)).
      { destruct Hcalls as [E|E]; rewrite E in Hin; simpl in Hin;
          repeat match goal with
                 | H : _ \/ _ |- _ => destruct H
                 | H : False |- _ => destruct H
                 end; try discriminate;
          match goal with H : _ = DocumentsBatchUpdate _ _ |- _ =>
            injection H as <- <- end; try reflexivity.
        rewrite cellRequests_no_delete in Hdel. discriminate. }
      subst requests. rewrite tableRequests_delete in Hdel.
      destruct (indexOf text lastLine 0 =? -1) eqn:L; [congruence|].
      apply Z.eqb_neq in L.
      exists pre, s, text, post. repeat split; try assumption.
      unfold tableRequests. now rewrite Hdel.
    + intros pre' s' text' post' Hruns' Hpre' Hi' Hlast'.
      rewrite Hruns in Hruns'.
      destruct (@first_split_unique _
                  (fun r => indexOf (snd r) firstLine 0 <> -1)
                  pre pre' post post' (s, text) (s', text') Hruns')
        as (_ & E & _); try assumption.
      { intros r Hr Hn. apply Hn. now apply Hpre. }
      { intros r Hr Hn. apply Hn. now apply Hpre'. }
      injection E as <- <-.
      rewrite Hlast' in Hcalls. simpl in Hcalls.
      unfold tableRequests in Hcalls. rewrite Hbefore in Hcalls.
      destruct Hcalls as [-> | ->]; eexists; reflexivity.
Qed.

(** One text run per line of the table. *)
Lemma delete_needs_last_line_in_run_witness :
  let id := str "doc-1" in
  let doc := docOfRuns [(1, str "| A | B |" ++ [ch_nl]);
                        (11, str "|---|---|" ++ [ch_nl]);
                        (21, str "| 1 | 2 |" ++ [ch_nl])] in
  exists rest,
    fst (run (serving doc) []
           (ConvertToTable {| docsClient := true; driveClient := true |}
              id exampleTable)) =
    DocumentsGet id :: DocumentsBatchUpdate (Val id) [InsertTable 2 2 1] :: rest.
Proof.
  refine (proj2 (@delete_needs_last_line_in_run
                   {| docsClient := true; driveClient := true |}
                   (serving (docOfRuns [(1, str "| A | B |" ++ [ch_nl]);
                                        (11, str "|---|---|" ++ [ch_nl]);
                                        (21, str "| 1 | 2 |" ++ [ch_nl])]))
                   (str "doc-1") exampleTable
                   (docOfRuns [(1, str "| A | B |" ++ [ch_nl]);
                               (11, str "|---|---|" ++ [ch_nl]);
                               (21, str "| 1 | 2 |" ++ [ch_nl])])
                   eq_refl eq_refl _ _)
                [] 1 (str "| A | B |" ++ [ch_nl])
                [(11, str "|---|---|" ++ [ch_nl]);
                 (21, str "| 1 | 2 |" ++ [ch_nl])]
                eq_refl _ _ eq_refl).
  - intros r [<-|[<-|[<-|[]]]]; vm_compute; discriminate.
  - vm_compute. discriminate.
  - intros r [].
  - vm_compute. discriminate.
Defined.


(* ------------------------------------------------------------------------ *)
(** ** Further properties of the tools *)

Import Dispatch MoreProps FailureFacts GridFacts RangeFacts FormatFacts.
Import ResourceFacts StartupFacts.

(** X1. FormatDoc does not return when one instruction has the empty
    string as its text and the document has a text run: the search loop
    of that instruction never ends, whatever the fuel, and no batch is
    sent. *)
Theorem FormatDoc_empty_text_never_returns (fuel : nat) (cl : Clients)
  (svc : Service) (documentId : jsstring)
  (formatting : list FormatInstruction) (format : FormatInstruction)
  (doc : Document) :
  docsClient cl = true ->
  svc [] (DocumentsGet documentId) = Resolved doc ->
  textRuns doc <> [] ->
  In format formatting ->
  text format = [] ->
  run svc [] (FormatDoc fuel cl documentId formatting) =
  ([DocumentsGet documentId], None).
Proof.
  intros Hcl Hget Hruns Hin Htext.
  unfold FormatDoc. rewrite Hcl. cbn [negb]. rewrite run_await, Hget.
  unfold formatRequests.
  rewrite forEachM_none with (x := format); [reflexivity|assumption|].
  intros requests. unfold applyFormat.
  now rewrite Htext, findOccurrences_empty_target.
Qed.

(** An instruction with an empty text after one with a text. *)
Lemma FormatDoc_empty_text_never_returns_witness :
  run (serving (docOfRuns [(1, str "Hello")])) []
    (FormatDoc 1000 {| docsClient := true; driveClient := true |}
       (str "doc-1")
       [{| text := str "Hello"; bold := Some true; italic := None;
           underline := None; heading := None |};
        {| text := []; bold := Some true; italic := None;
           underline := None; heading := None |}]) =
  ([DocumentsGet (str "doc-1")], None).
Proof.
  refine (@FormatDoc_empty_text_never_returns 1000
            {| docsClient := true; driveClient := true |}
            (serving (docOfRuns [(1, str "Hello")])) (str "doc-1") _
            {| text := []; bold := Some true; italic := None;
               underline := None; heading := None |}
            (docOfRuns [(1, str "Hello")]) eq_refl eq_refl _ _ eq_refl).
  - discriminate.
  - right. left. reflexivity.
Defined.

(** X2. When a call of a tool is rejected, the tool makes no further
    call and returns the error result of its [catch] block, "Error: "
    followed by the error, with [isError] set: this holds for each of the
    five tools and for whichever of its calls is rejected. *)
Theorem rejected_call_ends_tool (fuel : nat) (cl : Clients) (t : ToolCall)
  (svc : Service) (h rest : list Call) (c : Call) (e : jsstring) :
  fst (run svc [] (callTool fuel cl t)) = h ++ c :: rest ->
  svc h c = Rejected e ->
  rest = [] /\
  snd (run svc [] (callTool fuel cl t)) =
    Some {| content_text := str "Error: " ++ e; isError := true |}.
Proof.
  intros Htrace Hrej.
  apply (awaits_rejected svc (callTool_awaits fuel cl t) [] h c rest);
    [assumption|simpl; lia|assumption].
Qed.

(** ConvertToTable against a service that rejects the first batch: the
    table is not filled. *)
Lemma rejected_call_ends_tool_witness :
  @nil Call = [] /\
  snd (run (readOnly (docOfRuns [(1, str "| A |")]) (str "quota")) []
         (callTool 0 {| docsClient := true; driveClient := true |}
            (CallConvertToTable (str "doc-1") (str "| A |")))) =
    Some {| content_text := str "Error: " ++ str "quota"; isError := true |}.
Proof.
  refine (@rejected_call_ends_tool 0
            {| docsClient := true; driveClient := true |}
            (CallConvertToTable (str "doc-1") (str "| A |"))
            (readOnly (docOfRuns [(1, str "| A |")]) (str "quota"))
            [DocumentsGet (str "doc-1")] []
            (DocumentsBatchUpdate (Val (str "doc-1"))
               [DeleteContentRange 1 6; InsertTable 1 1 1])
            (str "quota") _ eq_refl).
  vm_compute. reflexivity.
Defined.

(** X3. Every row of the parsed grid has at least one cell, and every
    cell is a non-empty string without white space at either end, without
    "|" and without a newline. *)
Theorem parsed_cells_are_clean (tableText : jsstring) (row : list jsstring)
  (cell : jsstring) :
  In row (parseRows tableText) ->
  row <> [] /\
  (In cell row ->
   cell <> [] /\ trim cell = cell /\
   ~ In ch_pipe cell /\ ~ In ch_nl cell).
Proof.
  intros Hrow. apply parseRows_row in Hrow as (line & Hline & Hkept & ->).
  split; [now apply rowLine_cells|].
  intros Hcell. apply parseCells_cell in Hcell as (Hne & Htrim & Hunits).
  repeat split; try assumption.
  - intros Hp. now destruct (Hunits _ Hp) as [_ []].
  - intros Hn. destruct (Hunits _ Hn) as [Hin _].
    now apply (@split_no_sep ch_nl (trim tableText) line Hline).
Qed.

(** The header row of the example table and its first cell. *)
Lemma parsed_cells_are_clean_witness :
  [str "A"; str "B"] <> [] /\
  (In (str "A") [str "A"; str "B"] ->
   str "A" <> [] /\ trim (str "A") = str "A" /\
   ~ In ch_pipe (str "A") /\ ~ In ch_nl (str "A")).
Proof.
  refine (@parsed_cells_are_clean exampleTable [str "A"; str "B"] (str "A") _).
  vm_compute. left. reflexivity.
Defined.

(** X4. ConvertToTable on a table text that is blank, or that has no
    line that is kept with a non-blank cell, returns the error "No valid
    table data found" and makes no call, not even the [get] of the
    document. *)
Theorem ConvertToTable_without_rows (cl : Clients) (svc : Service)
  (documentId tableText : jsstring) :
  docsClient cl = true ->
  forallb isSpace tableText = true \/
  (forall line, In line (tableLines tableText) -> rowLine line = false) ->
  run svc [] (ConvertToTable cl documentId tableText) =
  ([], Some {| content_text := crossMark ++ str " No valid table data found";
               isError := true |}).
Proof.
  intros Hcl H.
  assert (Hrows : parseRows tableText = []).
  { destruct H as [H|H]; [now apply parseRows_blank|].
    rewrite parseRows_rowLines.
    induction (tableLines tableText) as [|line rest IH]; [reflexivity|].
    simpl. rewrite (H line) by now left.
    apply IH. intros. apply H. now right. }
  unfold ConvertToTable. rewrite Hcl, Hrows. reflexivity.
Qed.

(** A table text of white space only. *)
Lemma ConvertToTable_without_rows_witness :
  run (serving (docOfRuns [])) []
    (ConvertToTable {| docsClient := true; driveClient := true |}
       (str "doc-1") (str "  " ++ [ch_nl])) =
  ([], Some {| content_text := crossMark ++ str " No valid table data found";
               isError := true |}).
Proof.
  exact (@ConvertToTable_without_rows
           {| docsClient := true; driveClient := true |}
           (serving (docOfRuns [])) (str "doc-1") (str "  " ++ [ch_nl])
           eq_refl (or_introl eq_refl)).
Defined.

(** X5. For every table text, the second batch of ConvertToTable holds
    exactly one InsertText per cell of the grid, row by row and cell by
    cell, the cell of row [r] and column [c] (from 0) at
    [tableStart + 4 + r * 5 + c * 2]; rows may differ in length, and no
    cell is skipped. *)
Theorem cell_requests_formula (tableText : jsstring) (tableStartIndex : Z) :
  cellRequests (parseRows tableText) tableStartIndex =
    cellInserts (parseRows tableText) tableStartIndex /\
  List.length (cellRequests (parseRows tableText) tableStartIndex) =
    List.length (List.concat (parseRows tableText)).
Proof.
  assert (E : cellRequests (parseRows tableText) tableStartIndex =
              cellInserts (parseRows tableText) tableStartIndex).
  { unfold cellRequests, cellInserts. rewrite rowLoop_inserts; [reflexivity|].
    intros row cell. apply parseRows_truthy. }
  split; [assumption|]. rewrite E. apply cellInserts_length.
Qed.

(** X6. A DeleteRange that ConvertToTable sends lies inside one text run
    of the document: it starts at or after the start of the run, is not
    empty, and ends at or before the end of the run (offsets of text runs
    being non-negative). *)
Theorem delete_range_inside_run (cl : Clients) (svc : Service)
  (documentId tableText : jsstring) (doc : Document)
  (id : Nullable jsstring) (requests : list Request) (a b : Z) :
  docsClient cl = true ->
  svc [] (DocumentsGet documentId) = Resolved doc ->
  offsetsNonNegative doc ->
  In (DocumentsBatchUpdate id requests)
     (fst (run svc [] (ConvertToTable cl documentId tableText))) ->
  In (DeleteContentRange a b) requests ->
  exists s text,
    In (s, text) (textRuns doc) /\ s <= a /\ a < b /\ b <= s + len text.
Proof.
  intros Hcl Hget Hnn Hbatch Hdel.
  destruct (parseRows tableText) as [|row0 rows0] eqn:Hrows.
  { unfold ConvertToTable in Hbatch. rewrite Hcl, Hrows in Hbatch.
    destruct Hbatch. }
  assert (Hne : parseRows tableText <> []) by (rewrite Hrows; discriminate).
  destruct (@ConvertToTable_batches cl svc documentId tableText doc id
              requests Hcl Hget Hnn Hne Hbatch)
    as (pre & s & text & post & Hruns & _ & Hi & Hs & Hreq).
  exists s, text. split; [rewrite Hruns; apply in_elt|].
  destruct Hreq as [-> | ->].
  - exfalso.
    assert (H : existsb isDelete
                  (cellRequests (parseRows tableText)
                     (s + indexOf text (hd [] (tableLines tableText)) 0))
                = true)
      by (apply existsb_exists; exists (DeleteContentRange a b); auto).
    rewrite cellRequests_no_delete in H. discriminate.
  - unfold tableRequests in Hdel.
    destruct (@indexOf_bounds _ _ Hi) as [Hi0 _].
    destruct (indexOf text (last (tableLines tableText) []) 0 =? -1) eqn:L.
    + replace (-1 >? s + indexOf text (hd [] (tableLines tableText)) 0)
        with false in Hdel
        by (symmetry; rewrite Z.gtb_ltb; apply Z.ltb_ge; lia).
      destruct Hdel as [H|[]]. discriminate.
    + apply Z.eqb_neq in L. destruct (@indexOf_bounds _ _ L) as [Hj0 Hj1].
      match type of Hdel with
      | In _ ((if ?g then _ else _) ++ _) => destruct g eqn:G
      end; simpl in Hdel.
      * destruct Hdel as [H|[H|[]]]; [|discriminate].
        injection H as <- <-. apply Z.gtb_lt in G. lia.
      * destruct Hdel as [H|[]]. discriminate.
Qed.

(** The example table in one text run that starts at offset 1. *)
Lemma delete_range_inside_run_witness :
  exists s text,
    In (s, text) (textRuns (docOfRuns [(1, exampleTable ++ [ch_nl])])) /\
    s <= 1 /\ 1 < 30 /\ 30 <= s + len text.
Proof.
  refine (@delete_range_inside_run
            {| docsClient := true; driveClient := true |}
            (serving (docOfRuns [(1, exampleTable ++ [ch_nl])]))
            (str "doc-1") exampleTable
            (docOfRuns [(1, exampleTable ++ [ch_nl])])
            (Val (str "doc-1"))
            [DeleteContentRange 1 30; InsertTable 2 2 1] 1 30
            eq_refl eq_refl _ _ _).
  - intros r [<-|[]]. vm_compute. discriminate.
  - vm_compute. right. left. reflexivity.
  - left. reflexivity.
Defined.

(** X7. For a table text of a single line, whenever that line is found
    in the document the first batch deletes exactly the occurrence found,
    from its start to its start plus the length of the line, and inserts
    a table of one row there. *)
Theorem single_line_table_is_deleted (cl : Clients) (svc : Service)
  (documentId tableText line : jsstring) (doc : Document)
  (pre post : list (Z * jsstring)) (s : Z) (text : jsstring) :
  docsClient cl = true ->
  svc [] (DocumentsGet documentId) = Resolved doc ->
  tableLines tableText = [line] ->
  parseRows tableText <> [] ->
  textRuns doc = pre ++ (s, text) :: post ->
  (forall r, In r pre -> indexOf (snd r) line 0 = -1) ->
  indexOf text line 0 <> -1 ->
  0 <= s ->
  exists rest,
    fst (run svc [] (ConvertToTable cl documentId tableText)) =
    DocumentsGet documentId
    :: DocumentsBatchUpdate (Val documentId)
         [DeleteContentRange (s + indexOf text line 0)
            (s + indexOf text line 0 + len line);
          InsertTable 1 (lengthZ (parseCells line)) (s + indexOf text line 0)]
    :: rest.
Proof.
  intros Hcl Hget Hlines Hrows Hruns Hpre Hi Hs.
  destruct (@single_line_table tableText line Hlines Hrows) as [Hgrid Hlen].
  destruct (@ConvertToTable_first_batch cl svc documentId tableText doc
              pre post s text Hcl Hget Hrows Hruns) as (rest & E);
    try rewrite Hlines; try assumption.
  exists rest. rewrite E, Hlines, Hgrid. simpl hd. simpl last.
  apply Z.eqb_neq in Hi. rewrite Hi. unfold tableRequests.
  replace (s + indexOf text line 0 + len line >? s + indexOf text line 0)
    with true by (symmetry; apply Z.gtb_lt; lia).
  reflexivity.
Qed.

(** The line "| A |" in the middle of a text run. *)
Lemma single_line_table_is_deleted_witness :
  exists rest,
    fst (run (serving (docOfRuns [(1, str "see | A | here")])) []
           (ConvertToTable {| docsClient := true; driveClient := true |}
              (str "doc-1") (str "| A |"))) =
    DocumentsGet (str "doc-1")
    :: DocumentsBatchUpdate (Val (str "doc-1"))
         [DeleteContentRange (1 + 4) (1 + 4 + 5); InsertTable 1 1 (1 + 4)]
    :: rest.
Proof.
  refine (@single_line_table_is_deleted
            {| docsClient := true; driveClient := true |}
            (serving (docOfRuns [(1, str "see | A | here")]))
            (str "doc-1") (str "| A |") (str "| A |")
            (docOfRuns [(1, str "see | A | here")])
            [] [] 1 (str "see | A | here")
            eq_refl eq_refl eq_refl _ eq_refl _ _ _).
  - vm_compute. discriminate.
  - intros r [].
  - vm_compute. discriminate.
  - vm_compute. discriminate.
Defined.

(** X8. UpdateDoc against a document without content, where the end
    offset is missing, 0 or 1 (all read as 1): "replace" sends the
    InsertText at 1 alone, with no DeleteRange, and "append" sends its
    InsertText at offset 0. *)
Theorem UpdateDoc_empty_document (cl : Clients) (svc : Service)
  (documentId content : jsstring) (doc : Document) :
  docsClient cl = true ->
  svc [] (DocumentsGet documentId) = Resolved doc ->
  lastEndIndex doc = None \/ lastEndIndex doc = Some 0
  \/ lastEndIndex doc = Some 1 ->
  fst (run svc [] (UpdateDoc cl documentId content (Some replace))) =
    [DocumentsGet documentId;
     DocumentsBatchUpdate (Val documentId) [InsertText 1 content]] /\
  fst (run svc [] (UpdateDoc cl documentId content (Some append))) =
    [DocumentsGet documentId;
     DocumentsBatchUpdate (Val documentId)
       [InsertText 0 (ch_nl :: content)]].
Proof.
  intros Hcl Hget Hend.
  assert (E : orElse (lastEndIndex doc) 1 = 1)
    by (destruct Hend as [->|[->| ->]]; reflexivity).
  unfold UpdateDoc. rewrite Hcl. cbn [negb].
  repeat rewrite run_await. rewrite Hget. repeat rewrite run_await.
  unfold updateRequests. rewrite E. simpl app.
  split; case_outcome; reflexivity.
Qed.

(** A document without a body. *)
Lemma UpdateDoc_empty_document_witness :
  fst (run (serving {| body := None |}) []
         (UpdateDoc {| docsClient := true; driveClient := true |}
            (str "doc-1") (str "New") (Some replace))) =
    [DocumentsGet (str "doc-1");
     DocumentsBatchUpdate (Val (str "doc-1")) [InsertText 1 (str "New")]] /\
  fst (run (serving {| body := None |}) []
         (UpdateDoc {| docsClient := true; driveClient := true |}
            (str "doc-1") (str "New") (Some append))) =
    [DocumentsGet (str "doc-1");
     DocumentsBatchUpdate (Val (str "doc-1"))
       [InsertText 0 (ch_nl :: str "New")]].
Proof.
  exact (@UpdateDoc_empty_document
           {| docsClient := true; driveClient := true |}
           (serving {| body := None |}) (str "doc-1") (str "New")
           {| body := None |} eq_refl eq_refl (or_introl eq_refl)).
Defined.

(** X9. In the lines that [formatMarkdownTable] pushes, a line of the
    input is inside a fenced block, that is after an odd number of
    fences, exactly when it contains "|": no line without "|" is put
    inside a block. *)
Theorem fenced_exactly_table_lines (text : jsstring) (pre post : list OutLine)
  (line : jsstring) :
  formattedLines text = pre ++ Pushed line :: post ->
  Nat.odd (countFence pre) = includes line (str "|").
Proof.
  intros E. apply blocked_at with (post := post).
  rewrite <- E, formattedLines_emitted. apply emitted_blocked.
Qed.

(** The line after a table of one row. *)
Lemma fenced_exactly_table_lines_witness :
  Nat.odd (countFence [Fence; Pushed (str "|x|"); Fence]) =
  includes (str "after") (str "|").
Proof.
  exact (@fenced_exactly_table_lines
           (str "|x|" ++ [ch_nl] ++ str "after")
           [Fence; Pushed (str "|x|"); Fence] [] (str "after") eq_refl).
Defined.

(** X10. The text that [formatMarkdownTable] returns, split at newlines,
    is the list of lines it pushed: the lines of the input and the
    fences, so as many lines as the input has plus one per fence. *)
Theorem formatMarkdownTable_lines (text : jsstring) :
  split ch_nl (formatMarkdownTable text) =
    List.map render (formattedLines text) /\
  List.length (split ch_nl (formatMarkdownTable text)) =
    (List.length (split ch_nl text) + countFence (formattedLines text))%nat.
Proof.
  assert (E : split ch_nl (formatMarkdownTable text) =
              List.map render (formattedLines text)).
  { unfold formatMarkdownTable. apply split_join.
    - intros H. apply map_eq_nil in H.
      pose proof (f_equal pushedLines H) as P.
      rewrite formattedLines_emitted, emitted_pushed in P.
      now apply split_not_nil in P.
    - rewrite formattedLines_emitted. apply emitted_no_newline.
      intros line. apply split_no_sep. }
  split; [assumption|].
  rewrite E, length_map, formattedLines_emitted. apply emitted_length.
Qed.

(** X11. For a target that is not empty, and with fuel for the loops,
    the search of FormatDoc returns exactly the occurrences of the target
    inside the text runs: a range is found if and only if it starts at a
    position of a text run at which the target begins and has the length
    of the target. *)
Theorem search_finds_every_occurrence (fuel : nat) (doc : Document)
  (target : jsstring) :
  target <> [] ->
  (enoughFuel doc <= fuel)%nat ->
  exists occurrences,
    findOccurrences fuel doc target = Some occurrences /\
    forall occurrence,
      In occurrence occurrences <->
      exists s text k,
        In (s, text) (textRuns doc) /\ 0 <= k /\
        startsWith target (skipn (Z.to_nat k) text) = true /\
        occurrence = {| start := s + k; end_ := s + k + len target |}.
Proof.
  intros Hne Hfuel. exists (occurrencesOf doc target).
  split; [now apply findOccurrences_all|].
  intros occ. unfold occurrencesOf, occurrencesIn.
  rewrite in_flat_map. split.
  - intros ([s text] & Hrun & Hocc). apply in_map_iff in Hocc as (k & <- & Hk).
    apply matchPositions_In in Hk as [Hk0 Hk]; [|assumption].
    rewrite Z.sub_0_r in Hk. exists s, text, k. auto.
  - intros (s & text & k & Hrun & Hk0 & Hk & ->).
    exists (s, text). split; [assumption|].
    apply in_map_iff. exists k. split; [reflexivity|].
    apply matchPositions_In; [assumption|]. now rewrite Z.sub_0_r.
Qed.

(** The target "aba" in a document with the text run "ababab". *)
Lemma search_finds_every_occurrence_witness :
  exists occurrences,
    findOccurrences 7 (docOfRuns [(1, str "ababab")]) (str "aba")
      = Some occurrences /\
    forall occurrence,
      In occurrence occurrences <->
      exists s text k,
        In (s, text) (textRuns (docOfRuns [(1, str "ababab")])) /\ 0 <= k /\
        startsWith (str "aba") (skipn (Z.to_nat k) text) = true /\
        occurrence = {| start := s + k; end_ := s + k + len (str "aba") |}.
Proof.
  refine (@search_finds_every_occurrence 7 (docOfRuns [(1, str "ababab")])
            (str "aba") _ _).
  - discriminate.
  - vm_compute. repeat constructor.
Defined.

(** X12. When no instruction has an empty text, FormatDoc returns: with
    fuel for the loops it sends, after the [get], one batch with the
    requests of the instructions in their order, each with its
    occurrences in document order, or no batch when there is no request,
    and it returns a result. *)
Theorem FormatDoc_returns (fuel : nat) (cl : Clients) (svc : Service)
  (documentId : jsstring) (formatting : list FormatInstruction)
  (doc : Document) :
  docsClient cl = true ->
  svc [] (DocumentsGet documentId) = Resolved doc ->
  (forall format, In format formatting -> text format <> []) ->
  (enoughFuel doc <= fuel)%nat ->
  fst (run svc [] (FormatDoc fuel cl documentId formatting)) =
    DocumentsGet documentId
    :: (if lengthZ (requestsFor doc formatting) >? 0
        then [DocumentsBatchUpdate (Val documentId)
                (requestsFor doc formatting)]
        else []) /\
  exists r, snd (run svc [] (FormatDoc fuel cl documentId formatting)) = Some r.
Proof.
  intros Hcl Hget Htext Hfuel.
  unfold FormatDoc. rewrite Hcl. cbn [negb]. rewrite run_await, Hget.
  rewrite formatRequests_all by assumption.
  destruct (lengthZ (requestsFor doc formatting) >? 0).
  - rewrite run_await. case_outcome; split; try reflexivity; eexists;
      reflexivity.
  - split; [reflexivity|]. eexists. reflexivity.
Qed.

(** Two instructions on a document of one text run. *)
Lemma FormatDoc_returns_witness :
  fst (run (serving (docOfRuns [(1, str "Hello world")])) []
         (FormatDoc 12 {| docsClient := true; driveClient := true |}
            (str "doc-1")
            [{| text := str "world"; bold := Some true; italic := None;
                underline := None; heading := None |};
             {| text := str "Hello"; bold := None; italic := None;
                underline := None; heading := Some (1 # 1)%Q |}])) =
  [DocumentsGet (str "doc-1");
   DocumentsBatchUpdate (Val (str "doc-1"))
     [UpdateTextStyle 7 12
        {| ts_bold := Some true; ts_italic := None; ts_underline := None |}
        (str "bold");
      UpdateParagraphStyle 1 6 (str "HEADING_1") (str "namedStyleType")]].
Proof.
  refine (proj1 (@FormatDoc_returns 12
                   {| docsClient := true; driveClient := true |}
                   (serving (docOfRuns [(1, str "Hello world")]))
                   (str "doc-1") _ (docOfRuns [(1, str "Hello world")])
                   eq_refl eq_refl _ _)).
  - intros format [<-|[<-|[]]]; discriminate.
  - vm_compute. repeat constructor.
Defined.

(** X13. ListDocs lists every file that the Drive service returns, in
    the order returned and without cutting the list: its text is the
    header followed by one entry per file, with the name and the id of
    each file in it, or by "No documents found." when the answer has no
    [files] field or an empty list. *)
Theorem ListDocs_lists_every_file
  (toLocaleDateString : Nullable jsstring -> jsstring) (href : jsstring)
  (answer : Resource.ListParams -> Outcome (option (list Resource.DriveFile)))
  (data_files : option (list Resource.DriveFile)) :
  answer Resource.listParams = Resolved data_files ->
  let files := match data_files with Some files => files | None => [] end in
  let text :=
    str "Recent Google Docs:" ++ [ch_nl; ch_nl]
    ++ match files with
       | [] => str "No documents found."
       | _ :: _ =>
           List.concat
             (List.map (Resource.addFile toLocaleDateString []) files)
       end in
  Resource.serve answer (Resource.ListDocs toLocaleDateString true href) =
    ([Resource.listParams],
     {| Resource.uri := href; Resource.contents_text := text |}) /\
  forall file,
    In file files ->
    includes text (showId (Resource.name file)) = true /\
    includes text (showId (Resource.id file)) = true.
Proof.
  intros Hanswer files text.
  assert (E : Resource.listing toLocaleDateString files = text).
  { unfold Resource.listing. subst text.
    destruct files as [|file rest]; [reflexivity|].
    replace (lengthZ (file :: rest) =? 0) with false
      by (symmetry; apply Z.eqb_neq; unfold lengthZ; simpl List.length; lia).
    rewrite addFile_fold. unfold Resource.header.
    now rewrite <- !app_assoc. }
  split.
  - unfold Resource.ListDocs. cbn [negb Resource.serve]. rewrite Hanswer.
    fold files. now rewrite E.
  - intros file Hin. subst text.
    destruct files as [|file0 rest]; [destruct Hin|].
    exact (@entries_include toLocaleDateString (file0 :: rest) file
             (str "Recent Google Docs:" ++ [ch_nl; ch_nl]) Hin).
Qed.

(** Two files, the second without a name. *)
Lemma ListDocs_lists_every_file_witness :
  let files :=
    [{| Resource.name := Val (str "Notes"); Resource.id := Val (str "a1");
        Resource.modifiedTime := Val (str "2024-01-02T03:04:05Z") |};
     {| Resource.name := Undefined; Resource.id := Val (str "b2");
        Resource.modifiedTime := Null |}] in
  let text :=
    str "Recent Google Docs:" ++ [ch_nl; ch_nl]
    ++ List.concat (List.map (Resource.addFile showId []) files) in
  Resource.serve (fun _ => Resolved (Some files))
    (Resource.ListDocs showId true (str "googledocs://list")) =
    ([Resource.listParams],
     {| Resource.uri := str "googledocs://list";
        Resource.contents_text := text |}) /\
  forall file,
    In file files ->
    includes text (showId (Resource.name file)) = true /\
    includes text (showId (Resource.id file)) = true.
Proof.
  exact (@ListDocs_lists_every_file showId (str "googledocs://list")
           (fun _ => Resolved (Some _)) (Some _) eq_refl).
Defined.

Section StartupProperties.

Variable Token : Type.
Variable parse : jsstring -> option Token.
Variable stringify : Token -> jsstring.
Variable env_TOKEN_PATH : option jsstring.
Variable homeTokenPath : jsstring.
Variable env_GOOGLE_OAUTH_PATH : option jsstring.
Variable cwdCredentialsPath : jsstring.


(** X15. After a sign-in that succeeded, the token is on disk and the
    next [authorize] uses it: on a disk that keeps what is written, with
    a credentials file and no token file, [authorize] signs in and writes
    the token; run again on the disk it left, it returns the client of
    that token after testing and reading the token file only, given that
    [JSON.parse] reads back what [JSON.stringify] wrote. *)
Theorem saved_token_is_used_next_time (login : jsstring -> Outcome Token)
  (disk : Startup.Disk) (token : Token) (keys : jsstring) :
  let tokenPath := Startup.TOKEN_PATH env_TOKEN_PATH homeTokenPath in
  let credentials :=
    Startup.credentialsPath env_GOOGLE_OAUTH_PATH cwdCredentialsPath in
  let authorize :=
    Startup.authorize parse stringify env_TOKEN_PATH homeTokenPath
      env_GOOGLE_OAUTH_PATH cwdCredentialsPath in
  parse (stringify token) = Some token ->
  disk tokenPath = None ->
  disk credentials = Some keys ->
  login credentials = Resolved token ->
  let first := Startup.onDisk login disk authorize in
  first =
    (Startup.written disk tokenPath (stringify token),
     [Startup.ExistsSync tokenPath; Startup.ExistsSync credentials;
      Startup.Authenticate credentials;
      Startup.WriteFileSync tokenPath (stringify token)],
     Resolved (Startup.SignedIn token)) /\
  Startup.onDisk login (fst (fst first)) authorize =
    (fst (fst first),
     [Startup.ExistsSync tokenPath; Startup.ReadFileSync tokenPath],
     Resolved (Startup.SavedToken token)).
Proof.
  intros tokenPath credentials authorize Hparse Hnone Hkeys Hlogin first.
  assert (E : first =
              (Startup.written disk tokenPath (stringify token),
               [Startup.ExistsSync tokenPath; Startup.ExistsSync credentials;
                Startup.Authenticate credentials;
                Startup.WriteFileSync tokenPath (stringify token)],
               Resolved (Startup.SignedIn token))).
  { subst first authorize. unfold Startup.authorize, Startup.signIn.
    fold tokenPath. fold credentials.
    cbn [Startup.onDisk]. rewrite Hnone. cbn [Startup.onDisk negb].
    rewrite Hkeys. cbn [Startup.onDisk negb]. rewrite Hlogin.
    reflexivity. }
  split; [assumption|]. rewrite E. cbn [fst].
  subst authorize. unfold Startup.authorize. fold tokenPath.
  cbn [Startup.onDisk]. rewrite written_same. cbn [Startup.onDisk].
  rewrite written_same. cbn [Startup.onDisk]. rewrite Hparse.
  reflexivity.
Qed.

(** X16. [initClients] returns true exactly when [authorize] returns a
    client, and then both client handles are set; when it returns false
    both handles are left undefined, so that every call of a tool
    afterwards returns an error result without calling the service. *)
Theorem failed_start_leaves_tools_uninitialized (world : Startup.World Token) :
  let started :=
    snd (Startup.play world []
           (Startup.initClients parse stringify env_TOKEN_PATH homeTokenPath
              env_GOOGLE_OAUTH_PATH cwdCredentialsPath)) in
  let authorized :=
    snd (Startup.play world []
           (Startup.authorize parse stringify env_TOKEN_PATH homeTokenPath
              env_GOOGLE_OAUTH_PATH cwdCredentialsPath)) in
  (fst started = true <-> exists client, authorized = Resolved client) /\
  (fst started = true ->
   docsClient (snd started) = true /\ driveClient (snd started) = true) /\
  (fst started = false ->
   forall (fuel : nat) (t : ToolCall) (svc : Service),
   exists r,
     run svc [] (callTool fuel (snd started) t) = ([], Some r) /\
     isError r = true).
Proof.
  intros started authorized. subst started.
  unfold Startup.initClients. rewrite play_andThen. fold authorized.
  destruct authorized as [client|e]; cbn [Startup.play fst snd].
  - split; [split; eauto|]. split; [auto|discriminate].
  - split; [split; [discriminate|intros [? [=]]]|].
    split; [discriminate|]. intros _ fuel t svc.
    destruct t; cbn [callTool];
      unfold CreateDoc, UpdateDoc, DeleteDoc, FormatDoc, ConvertToTable;
      cbn [docsClient driveClient negb run];
      eexists; split; reflexivity.
Qed.

End StartupProperties.

(** A disk with a credentials file, a sign-in that gives the token "t",
    and tokens that are their own JSON text. *)
Lemma saved_token_is_used_next_time_witness :
  let disk : Startup.Disk :=
    fun p => if Startup.sameString p (str "/w/credentials.json")
             then Some (str "{}") else None in
  let authorize :=
    Startup.authorize (fun s => Some s) (fun t => t) None
      (str "/h/.docugen/token.json") None (str "/w/credentials.json") in
  let first := Startup.onDisk (fun _ => Resolved (str "t")) disk authorize in
  first =
    (Startup.written disk (str "/h/.docugen/token.json") (str "t"),
     [Startup.ExistsSync (str "/h/.docugen/token.json");
      Startup.ExistsSync (str "/w/credentials.json");
      Startup.Authenticate (str "/w/credentials.json");
      Startup.WriteFileSync (str "/h/.docugen/token.json") (str "t")],
     Resolved (Startup.SignedIn (str "t"))) /\
  Startup.onDisk (fun _ => Resolved (str "t")) (fst (fst first)) authorize =
    (fst (fst first),
     [Startup.ExistsSync (str "/h/.docugen/token.json");
      Startup.ReadFileSync (str "/h/.docugen/token.json")],
     Resolved (Startup.SavedToken (str "t"))).
Proof.
  exact (@saved_token_is_used_next_time jsstring (fun s => Some s)
           (fun t => t) None (str "/h/.docugen/token.json") None
           (str "/w/credentials.json") (fun _ => Resolved (str "t"))
           (fun p => if Startup.sameString p (str "/w/credentials.json")
                     then Some (str "{}") else None)
           (str "t") (str "{}") eq_refl eq_refl eq_refl eq_refl).
Defined.
